(** * fetch-client: the request execution engine, embedded and verified

    A shallow embedding of the library's core ([libs/core.ts],
    [libs/constants.ts], the interceptor chain and the [Client] facade):
    error model, body building, retry settings, the send loop with its
    backoff, content negotiated decoding, the interceptor chain and the
    facade's validation and error normalisation.

    Conventions of the embedding.
    - JavaScript numbers that the code uses as counters, status codes and
      millisecond timeouts are integers ([Z], [nat] for the handle
      counter); delays that enter the backoff arithmetic are rationals
      ([Q]), the exact counterpart of the floating point computation.
    - Host facilities the code calls but does not define ([fetch], [URL],
      [JSON], [Math.random], [Date.now], [String]) are the fields of a
      [Platform] record; every definition that uses one takes the platform
      as an argument.
    - A computation that can throw and that mutates state is a function
      [S -> Completion A * S]: the state survives a throw, as it does in
      JavaScript. *)

From Stdlib Require Import ZArith QArith Qminmax List String Ascii Bool Lia Lqa.
From Stdlib Require Import Qpower DecimalString Sorted.
Import ListNotations.

#[local] Set Warnings "-register-all".

Local Open Scope string_scope.
Local Open Scope Z_scope.

(* ===================================================================== *)
(** ** Strings: the [String.prototype] operations the code relies on      *)
(* ===================================================================== *)

(** ASCII lower-casing of one character (header names are ASCII). *)
Definition lower_ascii (c : ascii) : ascii :=
  let n := nat_of_ascii c in
  if (Nat.leb 65 n && Nat.leb n 90)%bool then ascii_of_nat (n + 32) else c.

Fixpoint toLowerCase (s : string) : string :=
  match s with
  | EmptyString => EmptyString
  | String c r => String (lower_ascii c) (toLowerCase r)
  end.

Definition upper_ascii (c : ascii) : ascii :=
  let n := nat_of_ascii c in
  if (Nat.leb 97 n && Nat.leb n 122)%bool then ascii_of_nat (n - 32) else c.

Fixpoint toUpperCase (s : string) : string :=
  match s with
  | EmptyString => EmptyString
  | String c r => String (upper_ascii c) (toUpperCase r)
  end.

(** The decimal numeral of an integer, as a template literal prints it. *)
Definition Z_toString (n : Z) : string := NilZero.string_of_int (Z.to_int n).

(** [s.startsWith(p)]. *)
Definition startsWith (s p : string) : bool := String.prefix p s.

(** [s.includes(p)]: [p] occurs somewhere in [s]. *)
Fixpoint includes (s p : string) : bool :=
  if String.prefix p s then true
  else match s with
       | EmptyString => false
       | String _ r => includes r p
       end.

(** [xs.join(sep)] for a list of strings. *)
Fixpoint join (sep : string) (xs : list string) : string :=
  match xs with
  | [] => ""
  | [x] => x
  | x :: r => x ++ sep ++ join sep r
  end.

(** A string is falsy exactly when it is empty. *)
Definition string_truthy (s : string) : bool :=
  match s with EmptyString => false | _ => true end.

(* ===================================================================== *)
(** ** JavaScript values that cross the library's boundary                *)
(* ===================================================================== *)

(** Plain data: what [JSON.stringify] accepts, what [JSON.parse] returns,
    and what a [throw] of a non-[Error] can carry. *)
Inductive JsValue : Type :=
| JUndefined
| JNull
| JBool (b : bool)
| JNum (q : Q)
| JStr (s : string)
| JArr (items : list JsValue)
| JObj (fields : list (string * JsValue)).

(** JavaScript truthiness of a plain value ([NaN] is not modelled). *)
Definition truthy (v : JsValue) : bool :=
  match v with
  | JUndefined | JNull => false
  | JBool b => b
  | JNum q => negb (Qeq_bool q 0)
  | JStr s => string_truthy s
  | JArr _ | JObj _ => true
  end.

(** An instance of [Error] that is not an [ApiError]: its [name] and its
    [message]. *)
Record ErrorObj : Type := mkError { err_name : string; err_message : string }.

(* ===================================================================== *)
(** ** [Headers]: the platform's case-insensitive header list             *)
(* ===================================================================== *)

Module Headers.

(** Entries in insertion order; names are stored lower-cased. *)
Definition t : Type := list (string * string).

Definition empty : t := [].

Definition matches (name : string) (e : string * string) : bool :=
  String.eqb (fst e) (toLowerCase name).

Definition has (h : t) (name : string) : bool := existsb (matches name) h.

(** [get]: the values of all entries of that name joined by [", "], or
    [null] (here [None]) when there is none. *)
Definition get (h : t) (name : string) : option string :=
  match filter (matches name) h with
  | [] => None
  | es => Some (join ", " (map snd es))
  end.

Definition append (h : t) (name value : string) : t :=
  (h ++ [(toLowerCase name, value)])%list.

(** Drop every entry of that name. *)
Definition delete (h : t) (name : string) : t :=
  filter (fun e => negb (matches name e)) h.

(** Overwrite the first entry of that name and drop its later ones. *)
Fixpoint replace_first (h : t) (name value : string) : t :=
  match h with
  | [] => []
  | e :: r =>
      if matches name e then (fst e, value) :: delete r name
      else e :: replace_first r name value
  end.

(** [set]: overwrite when the name is present, append otherwise. *)
Definition set (h : t) (name value : string) : t :=
  if has h name then replace_first h name value else append h name value.

(** [new Headers(record)] on a record the platform accepts: every own
    property appended in order.  The platform also validates (a name that
    is not a token, or a value holding NUL, CR or LF, makes the
    constructor throw a [TypeError]) and strips the outer whitespace of
    each value; [of_record] is the constructor on records whose names are
    valid and whose values are already in that normal form. *)
Definition of_record (init : list (string * string)) : t :=
  fold_left (fun h kv => append h (fst kv) (snd kv)) init empty.

End Headers.

(* ===================================================================== *)
(** ** Data model                                                         *)
(* ===================================================================== *)

(** The transport's response object.  Reading the body is an effect of the
    platform: [body_text k] is what [response.text()] settles to when [k]
    reads of this body were started before it ([inl]: it rejects), and
    likewise for the two binary readers.  A single-use body rejects for
    every [k > 0]; a re-readable test double does not. *)
Record Response : Type := mkResponse {
  status : Z;
  statusText : string;
  resp_headers : Headers.t;
  body_text : nat -> ErrorObj + string;
  body_blob : nat -> ErrorObj + string;
  body_arrayBuffer : nat -> ErrorObj + string
}.

(** [response.ok]: the status is in the range 200-299. *)
Definition ok (r : Response) : bool := (200 <=? status r) && (status r <=? 299).

(** What a retry predicate in function form is called with. *)
Inductive RetryArg : Type :=
| RetryResponse (r : Response)
| RetryError (e : ErrorObj).

(** [shouldRetry]: a list of status codes or a predicate. *)
Inductive ShouldRetry : Type :=
| RetryStatuses (codes : list Z)
| RetryPredicate (f : RetryArg -> bool).

(** [RetryConfig]: [maxRetries] is required, the other two are optional. *)
Record RetryConfig : Type := mkRetryConfig {
  maxRetries : Z;
  delay : option Q;
  shouldRetry : option ShouldRetry
}.

(** [Required<RetryConfig>], what [getRetrySettings] resolves to. *)
Record RetrySettings : Type := mkRetrySettings {
  rs_maxRetries : Z;
  rs_delay : Q;
  rs_shouldRetry : ShouldRetry
}.

(** The [retry] option: a bare number or a [RetryConfig] object. *)
Inductive RetryOption : Type :=
| RetryNumber (n : Z)
| RetryObject (c : RetryConfig).

Inductive HttpMethod : Type := GET | POST | PUT | DELETE | PATCH | HEAD | OPTIONS.

Definition method_name (m : HttpMethod) : string :=
  match m with
  | GET => "GET" | POST => "POST" | PUT => "PUT" | DELETE => "DELETE"
  | PATCH => "PATCH" | HEAD => "HEAD" | OPTIONS => "OPTIONS"
  end.

Inductive ResponseType : Type := RTjson | RTtext | RTblob | RTarrayBuffer | RTauto.

(** The classes [isNativeBodyType] tests with [instanceof]. *)
Inductive NativeClass : Type :=
| ArrayBuffer | Uint8Array | DataView | Blob | File | FormData
| URLSearchParams | ReadableStream.

(** The request payload [data], by what the code can tell apart:
    [== null], [typeof], [instanceof]. *)
Inductive Body : Type :=
| BUndefined
| BNull
| BString (s : string)
| BNative (c : NativeClass) (payload : string)
| BObject (fields : list (string * JsValue))
| BArray (items : list JsValue)
| BNumber (q : Q)
| BBoolean (b : bool).

(** [BodyInit], what is handed to the transport. *)
Inductive BodyInit : Type :=
| InitString (s : string)
| InitNative (c : NativeClass) (payload : string).

(** [RequestConfig]: the merged per-call configuration. *)
Record RequestConfig : Type := mkRequestConfig {
  cfg_method : HttpMethod;
  cfg_url : string;
  cfg_baseURL : option string;
  cfg_headers : list (string * string);
  cfg_params : option (list (string * JsValue));
  cfg_data : Body;
  cfg_timeout : option Z;
  cfg_retry : option RetryOption;
  cfg_responseType : option ResponseType
}.

(** An [ApiRequest] instance.  [req_headers] is the one mutable part: the
    [Headers] object that [createBody] writes to. *)
Record ApiRequest : Type := mkApiRequest {
  req_config : RequestConfig;
  req_headers : Headers.t;
  req_params : list (string * string);
  req_data : Body;
  req_method : HttpMethod;
  req_retry : option RetryOption;
  req_url : string;
  req_timeout : option Z
}.

(** An [ApiResponse] instance. *)
Record ApiResponse : Type := mkApiResponse {
  response : Response;
  request : ApiRequest
}.

(** The [response] an [ApiError] may carry: raw or wrapped. *)
Inductive ErrorResponse : Type :=
| RawResponse (r : Response)
| WrappedResponse (r : ApiResponse).

(** An [ApiError] instance; its [name] is always ["ApiError"]. *)
Record ApiError : Type := mkApiError {
  code : string;
  err_status : Z;
  message : string;
  err_response : option ErrorResponse;
  err_request : option ApiRequest;
  timestamp : Z
}.

(** Anything a [throw] can carry. *)
Inductive Thrown : Type :=
| ThrownError (e : ErrorObj)
| ThrownApiError (e : ApiError)
| ThrownValue (v : JsValue).

(** How a computation ends. *)
Inductive Completion (A : Type) : Type :=
| Return (a : A)
| Throw (t : Thrown).
Arguments Return {A} a.
Arguments Throw {A} t.

(** [error instanceof Error], with the [name] and [message] it then has. *)
Definition as_Error (t : Thrown) : option ErrorObj :=
  match t with
  | ThrownError e => Some e
  | ThrownApiError e => Some (mkError "ApiError" (message e))
  | ThrownValue _ => None
  end.

(** State and exceptions: the state survives a throw. *)
Definition M (S A : Type) : Type := S -> Completion A * S.

Definition ret {S A} (a : A) : M S A := fun s => (Return a, s).

(** [try { m } catch (e) { h e }]. *)
Definition try_catch {S A} (m : M S A) (h : Thrown -> M S A) : M S A :=
  fun s => match m s with
           | (Return a, s') => (Return a, s')
           | (Throw t, s') => h t s'
           end.

(* ===================================================================== *)
(** ** Constants ([libs/constants.ts])                                    *)
(* ===================================================================== *)

Definition DEFAULT_RETRY_STATUSES : list Z := [408; 429; 500; 502; 503; 504].

Definition READ_ONLY_METHODS : list string := ["GET"; "HEAD"].

Module RETRY_DEFAULTS.
Definition MAX_RETRIES : Z := 3.
Definition DELAY : Q := 1000.
Definition MAX_DELAY : Q := 30000.
Definition JITTER_FACTOR : Q := 1 # 10.
End RETRY_DEFAULTS.

Module DEFAULT_HEADERS.
Definition JSON_CONTENT_TYPE : string := "application/json".
End DEFAULT_HEADERS.

Module HTTP_STATUS.
Definition NO_CONTENT : Z := 204.
Definition NOT_MODIFIED : Z := 304.
Definition REQUEST_TIMEOUT : Z := 408.
End HTTP_STATUS.

Module CONTENT_TYPES.
Definition JSON : string := "json".
Definition TEXT : list string := ["text/"; "xml"].
(** [/^(image|video|audio|application\/octet-stream)/.test(s)]. *)
Definition BINARY_test (s : string) : bool :=
  existsb (startsWith s) ["image"; "video"; "audio"; "application/octet-stream"].
End CONTENT_TYPES.

Definition DEFAULT_RESPONSE_TYPE : ResponseType := RTauto.

Module ERROR_CODES.
Definition HTTP_ERROR : string := "HTTP_ERROR".
Definition TIMEOUT : string := "TIMEOUT".
Definition NETWORK_ERROR : string := "NETWORK_ERROR".
Definition ABORTED : string := "ABORTED".
Definition UNKNOWN_ERROR : string := "UNKNOWN_ERROR".
End ERROR_CODES.

(* ===================================================================== *)
(** ** The platform and the observable world                              *)
(* ===================================================================== *)

(** The second argument of [fetch]: the request's configuration spread
    into it, then [method], [headers], [body] and [signal].  The signal is
    represented by the timer armed on its controller: [Some t] when
    [setTimeout(() => controller.abort(), t)] was called, [None] when no
    timer was armed. *)
Record FetchInit : Type := mkFetchInit {
  init_config : RequestConfig;
  init_method : HttpMethod;
  init_headers : Headers.t;
  init_body : option BodyInit;
  init_signal : option Z
}.

(** How one transport invocation settles. *)
Inductive FetchOutcome : Type :=
| Resolves (r : Response)
| Rejects (t : Thrown).

(** The host environment.  [fetch k url init] is the outcome of the
    transport invocation that [k] invocations preceded; [Math_random k] is
    the [k]-th draw, a number in [0, 1). *)
Record Platform : Type := mkPlatform {
  URLT : Type;
  new_URL : string -> option string -> ErrorObj + URLT;
  searchParams_append : URLT -> string -> string -> URLT;
  URL_toString : URLT -> string;
  JSON_stringify : JsValue -> string;
  JSON_parse : string -> ErrorObj + JsValue;
  String_of : JsValue -> string;
  String_trim : string -> string;
  fetch : nat -> string -> FetchInit -> FetchOutcome;
  Math_random : nat -> Q;
  Math_random_range : forall k, (0 <= Math_random k /\ Math_random k < 1)%Q;
  Date_now : Z
}.

(** What a run of [send] leaves behind: the number of transport
    invocations, of random draws and of retry-predicate consultations, and
    the waits it slept through, oldest first. *)
Record World : Type := mkWorld {
  fetch_calls : nat;
  random_draws : nat;
  retry_checks : nat;
  sleeps : list Q
}.

Definition initial_world : World := mkWorld 0 0 0 [].

Definition count_fetch (w : World) : World :=
  mkWorld (S (fetch_calls w)) (random_draws w) (retry_checks w) (sleeps w).

Definition count_check (w : World) : World :=
  mkWorld (fetch_calls w) (random_draws w) (S (retry_checks w)) (sleeps w).

(* ===================================================================== *)
(** ** ErrorModel ([ApiError])                                            *)
(* ===================================================================== *)

Section ErrorModel.
Variable P : Platform.

(** [new ApiError(code, status, message, response, request)]. *)
Definition new_ApiError (c : string) (st : Z) (msg : string)
    (resp : option ErrorResponse) (req : option ApiRequest) : ApiError :=
  mkApiError c st msg resp req (Date_now P).

Definition fromResponse (r : Response) (req : option ApiRequest) : ApiError :=
  new_ApiError ERROR_CODES.HTTP_ERROR (status r)
    ("Request failed with status " ++ Z_toString (status r))
    (Some (RawResponse r)) req.

Definition fromTimeout (req : option ApiRequest) : ApiError :=
  new_ApiError ERROR_CODES.TIMEOUT HTTP_STATUS.REQUEST_TIMEOUT
    "Request timed out" None req.

Definition fromNetworkError (e : ErrorObj) (req : option ApiRequest) : ApiError :=
  new_ApiError ERROR_CODES.NETWORK_ERROR 0
    ("Network error: " ++ err_message e) None req.

Definition fromAbort (req : option ApiRequest) : ApiError :=
  new_ApiError ERROR_CODES.ABORTED 0 "Request was aborted" None req.

Definition fromParseError (dataType : string) (st : Z) (e : ErrorObj)
    (resp : option ApiResponse) (req : option ApiRequest) : ApiError :=
  new_ApiError (toUpperCase dataType ++ "_PARSE_ERROR") st
    ("Failed to parse " ++ dataType ++ ": " ++ err_message e)
    (option_map WrappedResponse resp) req.
End ErrorModel.

Definition isRetryable (e : ApiError) : bool :=
  existsb (String.eqb (code e)) ["NETWORK_ERROR"; "TIMEOUT"]
  || (String.eqb (code e) "HTTP_ERROR" && (500 <=? err_status e)).

(* ===================================================================== *)
(** ** RequestExecutor ([ApiRequest])                                     *)
(* ===================================================================== *)

(** [typeof data]. *)
Definition typeof (d : Body) : string :=
  match d with
  | BUndefined => "undefined"
  | BNull => "object"
  | BString _ => "string"
  | BNative _ _ => "object"
  | BObject _ => "object"
  | BArray _ => "object"
  | BNumber _ => "number"
  | BBoolean _ => "boolean"
  end.

(** [data instanceof C]; a [File] is also a [Blob]. *)
Definition instanceof (d : Body) (C : NativeClass) : bool :=
  match d, C with
  | BNative ArrayBuffer _, ArrayBuffer => true
  | BNative Uint8Array _, Uint8Array => true
  | BNative DataView _, DataView => true
  | BNative Blob _, Blob => true
  | BNative File _, Blob => true
  | BNative File _, File => true
  | BNative FormData _, FormData => true
  | BNative URLSearchParams _, URLSearchParams => true
  | BNative ReadableStream _, ReadableStream => true
  | _, _ => false
  end.

(** [data == null]. *)
Definition is_nullish (d : Body) : bool :=
  match d with BUndefined | BNull => true | _ => false end.

(** A payload as the plain value handed to [JSON.stringify] or [String];
    a native payload never takes that path and has no plain value. *)
Definition plain_value (d : Body) : option JsValue :=
  match d with
  | BUndefined => Some JUndefined
  | BNull => Some JNull
  | BString s => Some (JStr s)
  | BNative _ _ => None
  | BObject fs => Some (JObj fs)
  | BArray xs => Some (JArr xs)
  | BNumber q => Some (JNum q)
  | BBoolean b => Some (JBool b)
  end.

(** A native payload as the [BodyInit] it already is. *)
Definition as_BodyInit (d : Body) : option BodyInit :=
  match d with
  | BString s => Some (InitString s)
  | BNative c p => Some (InitNative c p)
  | _ => None
  end.

Definition isNativeBodyType (data : Body) : bool :=
  String.eqb (typeof data) "string"
  || instanceof data ArrayBuffer
  || instanceof data Uint8Array
  || instanceof data DataView
  || instanceof data Blob
  || instanceof data File
  || instanceof data FormData
  || instanceof data URLSearchParams
  || instanceof data ReadableStream.

Definition set_headers (req : ApiRequest) (h : Headers.t) : ApiRequest :=
  mkApiRequest (req_config req) h (req_params req) (req_data req)
    (req_method req) (req_retry req) (req_url req) (req_timeout req).

Section RequestExecutor.
Variable P : Platform.

Definition createParams (params : option (list (string * JsValue)))
    : list (string * string) :=
  match params with
  | Some ps => map (fun kv => (fst kv, String_of P (snd kv))) ps
  | None => []
  end.

(** The constructor, on a configuration whose header record the platform
    accepts (see [Headers.of_record]): on any other, [new Headers] throws
    and no instance is made. *)
Definition new_ApiRequest (config : RequestConfig) : ApiRequest :=
  mkApiRequest config
    (Headers.of_record (cfg_headers config))
    (createParams (cfg_params config))
    (cfg_data config) (cfg_method config) (cfg_retry config)
    (cfg_url config) (cfg_timeout config).

(** [buildUrl]; [inl] when [new URL] throws. *)
Definition buildUrl (this : ApiRequest) : ErrorObj + string :=
  match new_URL P (cfg_url (req_config this)) (cfg_baseURL (req_config this)) with
  | inl e => inl e
  | inr url =>
      inr (URL_toString P
             (fold_left (fun u kv => searchParams_append P u (fst kv) (snd kv))
                        (req_params this) url))
  end.

(** [createBody]: the body to send, and the request with the header
    write the call may have made. *)
Definition createBody (this : ApiRequest) : option BodyInit * ApiRequest :=
  if existsb (String.eqb (method_name (req_method this))) READ_ONLY_METHODS
     || is_nullish (req_data this)
  then (None, this)
  else if isNativeBodyType (req_data this)
  then (as_BodyInit (req_data this), this)
  else if String.eqb (typeof (req_data this)) "object"
  then (option_map (fun v => InitString (JSON_stringify P v)) (plain_value (req_data this)),
        set_headers this
          (Headers.set (req_headers this) "Content-Type" DEFAULT_HEADERS.JSON_CONTENT_TYPE))
  else (option_map (fun v => InitString (String_of P v)) (plain_value (req_data this)), this).

Definition getRetrySettings (this : ApiRequest) : RetrySettings :=
  match req_retry this with
  | Some (RetryNumber n) =>
      mkRetrySettings n RETRY_DEFAULTS.DELAY (RetryStatuses DEFAULT_RETRY_STATUSES)
  | Some (RetryObject c) =>
      mkRetrySettings (maxRetries c)
        (match delay c with Some d => d | None => RETRY_DEFAULTS.DELAY end)
        (match shouldRetry c with
         | Some s => s
         | None => RetryStatuses DEFAULT_RETRY_STATUSES
         end)
  | None =>
      mkRetrySettings RETRY_DEFAULTS.MAX_RETRIES RETRY_DEFAULTS.DELAY
        (RetryStatuses DEFAULT_RETRY_STATUSES)
  end.

Definition shouldRetryResponse (r : Response) (config : RetrySettings) : bool :=
  match rs_shouldRetry config with
  | RetryStatuses codes => existsb (Z.eqb (status r)) codes
  | RetryPredicate f => f (RetryResponse r)
  end.

Definition shouldRetryError (e : ErrorObj) (config : RetrySettings) : bool :=
  match rs_shouldRetry config with
  | RetryStatuses _ => negb (String.eqb (err_name e) "AbortError")
  | RetryPredicate f => f (RetryError e)
  end.

(** The delay [wait] sleeps for, given the value [r] of [Math.random()]. *)
Definition backoff_delay (d : Q) (attempt : Z) (r : Q) : Q :=
  let exponentialDelay := (d * Qpower 2 attempt)%Q in
  let jitter := (exponentialDelay * RETRY_DEFAULTS.JITTER_FACTOR * r)%Q in
  Qmin (exponentialDelay + jitter) RETRY_DEFAULTS.MAX_DELAY.

(** [wait]: one random draw, one sleep. *)
Definition wait (d : Q) (attempt : Z) (w : World) : World :=
  mkWorld (fetch_calls w) (S (random_draws w)) (retry_checks w)
    (sleeps w ++ [backoff_delay d attempt (Math_random P (random_draws w))])%list.

(** [retrySettings.delay || 1000]. *)
Definition delay_or_default (d : Q) : Q := if Qeq_bool d 0 then 1000%Q else d.

(** How one pass through the loop body ends: [continue], or a [return]
    or [throw] that leaves [send]. *)
Inductive Step : Type :=
| Continue (lastError : option ErrorObj) (this : ApiRequest) (w : World)
| Done (c : Completion Response) (lastError : option ErrorObj)
       (this : ApiRequest) (w : World).

(** The [catch] clause of the loop body. *)
Definition on_catch (settings : RetrySettings) (attempt : Z)
    (lastError : option ErrorObj) (t : Thrown) (this : ApiRequest) (w : World)
    : Step :=
  match as_Error t with
  | Some e =>
      if String.eqb (err_name e) "AbortError"
      then Done (Throw (ThrownApiError (fromTimeout P (Some this)))) (Some e) this w
      else if attempt <? rs_maxRetries settings
      then if shouldRetryError e settings
           then Continue (Some e) this
                  (wait (delay_or_default (rs_delay settings)) attempt (count_check w))
           else Done (Throw (ThrownApiError (fromNetworkError P e (Some this))))
                  (Some e) this (count_check w)
      else Done (Throw (ThrownApiError (fromNetworkError P e (Some this))))
             (Some e) this w
  | None => Done (Throw t) lastError this w
  end.

(** The timer of one pass: [this.timeout ? setTimeout(...) : undefined]
    arms none when the timeout is absent or 0. *)
Definition signal_of (this : ApiRequest) : option Z :=
  match req_timeout this with
  | Some ms => if ms =? 0 then None else Some ms
  | None => None
  end.

(** The second argument of [fetch], and the request after the call of
    [createBody] made while building it. *)
Definition fetch_init (this : ApiRequest) : FetchInit * ApiRequest :=
  let (body, this1) := createBody this in
  (mkFetchInit (req_config this1) (req_method this1) (req_headers this1)
     body (signal_of this), this1).

(** One pass through the loop body of [send]. *)
Definition attempt_step (settings : RetrySettings) (attempt : Z)
    (lastError : option ErrorObj) (this : ApiRequest) (w : World) : Step :=
  match buildUrl this with
  | inl e => on_catch settings attempt lastError (ThrownError e) this w
  | inr url =>
      let (init, this1) := fetch_init this in
      match fetch P (fetch_calls w) url init with
      | Resolves r =>
          if negb (ok r) && (attempt <? rs_maxRetries settings)
          then if shouldRetryResponse r settings
               then Continue lastError this1
                      (wait (delay_or_default (rs_delay settings)) attempt
                         (count_check (count_fetch w)))
               else Done (Return r) lastError this1 (count_check (count_fetch w))
          else Done (Return r) lastError this1 (count_fetch w)
      | Rejects t => on_catch settings attempt lastError t this1 (count_fetch w)
      end
  end.

(** The [for] loop of [send], by the number of passes still to make:
    [attempt] runs from 0 to [maxRetries]. *)
Fixpoint send_attempts (settings : RetrySettings) (remaining : nat) (attempt : Z)
    (lastError : option ErrorObj) (this : ApiRequest) (w : World)
    : Completion Response * ApiRequest * World :=
  match remaining with
  | O =>
      (Throw (ThrownError
                (match lastError with
                 | Some e => e
                 | None => mkError "Error" "Maximum retries exceeded"
                 end)), this, w)
  | S k =>
      match attempt_step settings attempt lastError this w with
      | Continue lastError' this' w' =>
          send_attempts settings k (attempt + 1) lastError' this' w'
      | Done c _ this' w' => (c, this', w')
      end
  end.

Definition send (this : ApiRequest) (w : World)
    : Completion Response * ApiRequest * World :=
  let retrySettings := getRetrySettings this in
  send_attempts retrySettings (Z.to_nat (rs_maxRetries retrySettings + 1)) 0
    None this w.

End RequestExecutor.

(* ===================================================================== *)
(** ** ResponseWrapper ([ApiResponse])                                    *)
(* ===================================================================== *)

(** What a decode yields: a plain value ([undefined], parsed JSON, a
    string), a [Blob] or an [ArrayBuffer]. *)
Inductive Data : Type :=
| DValue (v : JsValue)
| DBlob (bytes : string)
| DArrayBuffer (bytes : string).

(** The decoders run in [M nat]: the state is the number of reads of the
    response's body started so far. *)
Section ResponseWrapper.
Variable P : Platform.

Definition parse_error (this : ApiResponse) (dataType : string) (e : ErrorObj)
    : Thrown :=
  ThrownApiError
    (fromParseError P dataType (status (response this)) e
       (Some this) (Some (request this))).

Definition json (this : ApiResponse) : M nat Data :=
  fun reads =>
    match body_text (response this) reads with
    | inl e => (Throw (parse_error this "json" e), S reads)
    | inr text =>
        if negb (string_truthy (String_trim P text))
        then (Return (DValue JUndefined), S reads)
        else match JSON_parse P text with
             | inl e => (Throw (parse_error this "json" e), S reads)
             | inr v => (Return (DValue v), S reads)
             end
    end.

Definition text (this : ApiResponse) : M nat Data :=
  fun reads =>
    match body_text (response this) reads with
    | inl e => (Throw (parse_error this "text" e), S reads)
    | inr s => (Return (DValue (JStr s)), S reads)
    end.

Definition blob (this : ApiResponse) : M nat Data :=
  fun reads =>
    match body_blob (response this) reads with
    | inl e => (Throw (parse_error this "blob" e), S reads)
    | inr b => (Return (DBlob b), S reads)
    end.

Definition arrayBuffer (this : ApiResponse) : M nat Data :=
  fun reads =>
    match body_arrayBuffer (response this) reads with
    | inl e => (Throw (parse_error this "arrayBuffer" e), S reads)
    | inr b => (Return (DArrayBuffer b), S reads)
    end.

(** [this.headers.get("Content-Type") || undefined]. *)
Definition getContentType (this : ApiResponse) : option string :=
  match Headers.get (resp_headers (response this)) "Content-Type" with
  | Some s => if string_truthy s then Some s else None
  | None => None
  end.

Definition autoParseData (this : ApiResponse) : M nat Data :=
  let contentType := getContentType this in
  if (status (response this) =? HTTP_STATUS.NO_CONTENT)
     || (status (response this) =? HTTP_STATUS.NOT_MODIFIED)
  then ret (DValue JUndefined)
  else match contentType with
       | None => try_catch (json this) (fun _ => text this)
       | Some contentType =>
           if includes contentType CONTENT_TYPES.JSON then json this
           else if existsb (includes contentType) CONTENT_TYPES.TEXT then text this
           else if CONTENT_TYPES.BINARY_test contentType then blob this
           else json this
       end.

Definition getData (this : ApiResponse) : M nat Data :=
  match cfg_responseType (req_config (request this)) with
  | Some RTjson => json this
  | Some RTtext => text this
  | Some RTblob => blob this
  | Some RTarrayBuffer => arrayBuffer this
  | Some RTauto | None => autoParseData this
  end.

End ResponseWrapper.

(* ===================================================================== *)
(** ** InterceptorChain ([Interceptor<T>])                                *)
(* ===================================================================== *)

(** A JavaScript [Map] with number keys: entries in insertion order, a
    [set] on a present key keeps the entry's place. *)
Module JsMap.
Section Ops.
Context {V : Type}.

Definition t : Type := list (nat * V).

Fixpoint set (m : t) (k : nat) (v : V) : t :=
  match m with
  | [] => [(k, v)]
  | (k', v') :: r =>
      if Nat.eqb k' k then (k, v) :: r else (k', v') :: set r k v
  end.

Definition delete (m : t) (k : nat) : t :=
  filter (fun e => negb (Nat.eqb (fst e) k)) m.

Fixpoint get (m : t) (k : nat) : option V :=
  match m with
  | [] => None
  | (k', v') :: r => if Nat.eqb k' k then Some v' else get r k
  end.

Definition keys (m : t) : list nat := map fst m.
End Ops.
Arguments t V : clear implicits.
End JsMap.

Module Interceptor.
Section Chain.
Context {T : Type}.

(** A handler: a transform that may throw.  A handler that returns a
    promise is awaited, so every handler is a [T -> Completion T]. *)
Definition Handler : Type := T -> Completion T.

(** The argument of [use]: TypeScript asks for a function, JavaScript
    callers can pass anything. *)
Inductive Arg : Type :=
| Fn (handler : Handler)
| NotFn (v : JsValue).

Record t : Type := mk {
  handlers : JsMap.t Handler;
  nextId : nat
}.

(** [new Interceptor()]. *)
Definition create : t := mk [] 0.

Definition use (a : Arg) (this : t) : Completion nat * t :=
  match a with
  | NotFn _ =>
      (Throw (ThrownError (mkError "TypeError" "Handler must be a function")),
       this)
  | Fn handler =>
      let id := nextId this in
      (Return id, mk (JsMap.set (handlers this) id handler) (S (nextId this)))
  end.

(** The loop of [execute] over the map's entries. *)
Fixpoint run (hs : JsMap.t Handler) (result : T) : Completion T :=
  match hs with
  | [] => Return result
  | (_, handler) :: r =>
      match handler result with
      | Return result' => run r result'
      | Throw error =>
          Throw (ThrownError
                   (mkError "Error"
                      ("Interceptor handler failed: " ++
                       match as_Error error with
                       | Some e => err_message e
                       | None => "Unknown error"
                       end)))
      end
  end.

Definition execute (this : t) (item : T) : Completion T :=
  run (handlers this) item.

Definition clear (this : t) : t := mk [] (nextId this).

Definition size (this : t) : nat := List.length (handlers this).

Definition isEmpty (this : t) : bool := Nat.eqb (size this) 0.

Definition reject (id : nat) (this : t) : t :=
  mk (JsMap.delete (handlers this) id) (nextId this).
End Chain.
Arguments t T : clear implicits.
Arguments Handler T : clear implicits.
Arguments Arg T : clear implicits.
End Interceptor.

(* ===================================================================== *)
(** ** ClientFacade ([Client])                                            *)
(* ===================================================================== *)

Record ClientConfig : Type := mkClientConfig {
  cc_baseURL : option string;
  cc_timeout : option Z;
  cc_headers : option (list (string * string));
  cc_retry : option RetryOption;
  cc_responseType : option ResponseType
}.

(** [/^https?:\/\//.test(s)]. *)
Definition http_url_test (s : string) : bool :=
  startsWith s "http://" || startsWith s "https://".

(** Object spread of header records: a key already present keeps its
    place and takes the new value, a new key goes last. *)
Fixpoint record_set (r : list (string * string)) (k v : string)
    : list (string * string) :=
  match r with
  | [] => [(k, v)]
  | (k', v') :: rest =>
      if String.eqb k' k then (k, v) :: rest else (k', v') :: record_set rest k v
  end.

Definition record_spread (a b : list (string * string)) : list (string * string) :=
  fold_left (fun acc kv => record_set acc (fst kv) (snd kv)) b a.

Definition or_else {A} (x y : option A) : option A :=
  match x with Some _ => x | None => y end.

Module Client.

(** A [Client] instance: its configuration, whose [headers] is always an
    object, and its two chains. *)
Record t : Type := mk {
  baseURL : option string;
  timeout : option Z;
  headers : list (string * string);
  retry : option RetryOption;
  responseType : option ResponseType;
  interceptors_request : Interceptor.t ApiRequest;
  interceptors_response : Interceptor.t ApiResponse
}.

(** [validateConfig]: [x && ...] guards on the truthiness of [x], and
    the number 0 and the empty string are falsy. *)
Definition validateConfig (this : t) : Completion unit :=
  if match timeout this with
     | Some ms => negb (ms =? 0) && (ms <=? 0)
     | None => false
     end
  then Throw (ThrownError (mkError "Error" "Timeout must be greater than 0"))
  else if match baseURL this with
          | Some b => string_truthy b && negb (http_url_test b)
          | None => false
          end
  then Throw (ThrownError (mkError "Error" "BaseURL must be a valid HTTP/HTTPS URL"))
  else Return tt.

(** The constructor: the instance, or what [validateConfig] throws. *)
Definition create (config : ClientConfig) : Completion t :=
  let this :=
    mk (cc_baseURL config) (cc_timeout config)
      (match cc_headers config with Some h => h | None => [] end)
      (cc_retry config) (cc_responseType config)
      Interceptor.create Interceptor.create in
  match validateConfig this with
  | Return _ => Return this
  | Throw e => Throw e
  end.

Section Requests.
Variable P : Platform.

(** [mergeConfig]: per-call values win over the instance's.  A per-call
    option is [None] when the call's object has no such key; a key present
    with the value [undefined], which the spread would copy over the
    instance's value, is not represented. *)
Definition mergeConfig (this : t) (requestConfig : RequestConfig)
    : RequestConfig :=
  mkRequestConfig
    (cfg_method requestConfig)
    (cfg_url requestConfig)
    (or_else (cfg_baseURL requestConfig) (baseURL this))
    (record_spread (headers this) (cfg_headers requestConfig))
    (cfg_params requestConfig)
    (cfg_data requestConfig)
    (or_else (cfg_timeout requestConfig) (timeout this))
    (or_else (cfg_retry requestConfig) (retry this))
    (Some (match or_else (cfg_responseType requestConfig) (responseType this) with
           | Some rt => rt
           | None => DEFAULT_RESPONSE_TYPE
           end)).

Definition normalizeError (error : Thrown) (req : ApiRequest) : ApiError :=
  match error with
  | ThrownApiError e => e
  | ThrownError e => fromNetworkError P e (Some req)
  | ThrownValue v =>
      new_ApiError P ERROR_CODES.UNKNOWN_ERROR 0
        (if truthy v then String_of P v else "Unknown error occurred")
        None (Some req)
  end.

(** The [try] block of [request] up to its [return] statement: the
    request chain and [send], both awaited. *)
Definition request_try (this : t) (apiRequest : ApiRequest)
    : M World ApiResponse :=
  fun w =>
    match Interceptor.execute (interceptors_request this) apiRequest with
    | Throw e => (Throw e, w)
    | Return processedRequest =>
        match send P processedRequest w with
        | (Throw e, _, w') => (Throw e, w')
        | (Return rawResponse, processedRequest', w') =>
            (Return (mkApiResponse rawResponse processedRequest'), w')
        end
    end.

(** [request].  The [try] block ends in
    [return this.interceptors.response.execute(apiResponse)], a
    promise returned without [await]: the function has left the block
    when that promise settles, so its rejection is the rejection of
    [request] and never enters the [catch] clause. *)
Definition request (this : t) (requestConfig : RequestConfig)
    : M World ApiResponse :=
  fun w =>
    let mergedConfig := mergeConfig this requestConfig in
    let apiRequest := new_ApiRequest P mergedConfig in
    match request_try this apiRequest w with
    | (Return apiResponse, w') =>
        (Interceptor.execute (interceptors_response this) apiResponse, w')
    | (Throw error, w') =>
        (Throw (ThrownApiError (normalizeError error apiRequest)), w')
    end.

(** [execute]: [request], then [getData] on a body nobody has read. *)
Definition execute (this : t) (requestConfig : RequestConfig)
    : M World Data :=
  fun w =>
    match request this requestConfig w with
    | (Return r, w') => (fst (getData P r 0%nat), w')
    | (Throw e, w') => (Throw e, w')
    end.

End Requests.
End Client.

(* ===================================================================== *)
(** ** A test double of the platform, for concrete runs                   *)
(* ===================================================================== *)

Module TestDouble.

Definition draw_range : forall k : nat, (0 <= 0 /\ 0 < 1)%Q :=
  fun _ => conj (Qle_refl 0) eq_refl.

(** [JSON.parse] of the double knows the literal [null] only. *)
Definition parse (s : string) : ErrorObj + JsValue :=
  if String.eqb s "null" then inr JNull
  else inl (mkError "SyntaxError" "Unexpected token").

(** URLs are strings, [new URL] never throws, every random draw is 0,
    and the transport is the given oracle. *)
Definition platform (transport : nat -> string -> FetchInit -> FetchOutcome)
    : Platform :=
  mkPlatform string
    (fun url base => inr (match base with Some b => b ++ url | None => url end))
    (fun u k v => u ++ "&" ++ k ++ "=" ++ v)
    (fun u => u)
    (fun _ => "{}")
    parse
    (fun _ => "value")
    (fun s => s)
    transport
    (fun _ => 0%Q) draw_range
    0.

(** A response with the given status, headers and body text. *)
Definition reply (st : Z) (hs : list (string * string)) (body : string)
    : Response :=
  mkResponse st "" (Headers.of_record hs)
    (fun _ => inr body) (fun _ => inr body) (fun _ => inr body).

(** A transport that answers every call with the same status. *)
Definition always (st : Z) : nat -> string -> FetchInit -> FetchOutcome :=
  fun _ _ _ => Resolves (reply st [] "").

(** A transport whose every call rejects with an [Error] of that name. *)
Definition failing (name : string) : nat -> string -> FetchInit -> FetchOutcome :=
  fun _ _ _ => Rejects (ThrownError (mkError name "failed")).

(** A configuration with the given method, headers, payload and retry. *)
Definition config (m : HttpMethod) (hs : list (string * string)) (d : Body)
    (r : option RetryOption) : RequestConfig :=
  mkRequestConfig m "/users" (Some "https://api.test") hs None d None r None.

End TestDouble.


(* ===================================================================== *)
(** ** Specifications the code is checked against                         *)
(* ===================================================================== *)

(** A Content-Type the caller has set survives [createBody]. *)
Definition content_type_kept (P : Platform) (this : ApiRequest) : Prop :=
  forall v,
    Headers.get (req_headers this) "Content-Type" = Some v ->
    Headers.get (req_headers (snd (createBody P this))) "Content-Type" = Some v.

(** The wait lies between the exponential delay and that delay plus 10%,
    and does not exceed the ceiling. *)
Definition backoff_in_jitter_interval (d : Q) (attempt : Z) (r : Q) : Prop :=
  (d * Qpower 2 attempt <= backoff_delay d attempt r
   /\ backoff_delay d attempt r <= d * Qpower 2 attempt * (11 # 10)
   /\ backoff_delay d attempt r <= 30000)%Q.

(** The decode strategies of auto mode. *)
Inductive Strategy : Type :=
| Absent          (* [undefined], the body is not read *)
| JsonThenText    (* JSON, and text when that throws *)
| AsJson
| AsText
| AsBinary.

Definition decode (P : Platform) (s : Strategy) (this : ApiResponse) : M nat Data :=
  match s with
  | Absent => ret (DValue JUndefined)
  | JsonThenText => try_catch (json P this) (fun _ => text P this)
  | AsJson => json P this
  | AsText => text P this
  | AsBinary => blob P this
  end.

(** A rule: a test on the status and on the Content-Type header as
    [headers.get] returns it, and the strategy it selects. *)
Definition Rule : Type := (Z -> option string -> bool) * Strategy.

(** The first rule that applies decides; [default] when none does. *)
Fixpoint first_rule (rules : list Rule) (default : Strategy)
    (st : Z) (ct : option string) : Strategy :=
  match rules with
  | [] => default
  | (test, s) :: r => if test st ct then s else first_rule r default st ct
  end.

Definition no_content (st : Z) (_ : option string) : bool :=
  (st =? 204) || (st =? 304).

Definition type_missing (_ : Z) (ct : option string) : bool :=
  match ct with None => true | Some _ => false end.

Definition type_missing_or_empty (_ : Z) (ct : option string) : bool :=
  match ct with None => true | Some c => negb (string_truthy c) end.

Definition type_is (p : string -> bool) (_ : Z) (ct : option string) : bool :=
  match ct with Some c => p c | None => false end.

(** The ordered rule set with rule 4 on a Content-Type that starts with
    ["text/"] and rule 2 on a missing header. *)
Definition rules_text_prefix : list Rule :=
  [ (no_content, Absent);
    (type_missing, JsonThenText);
    (type_is (fun c => includes c "json"), AsJson);
    (type_is (fun c => startsWith c "text/" || includes c "xml"), AsText);
    (type_is CONTENT_TYPES.BINARY_test, AsBinary) ].

(** The ordered rule set with rule 4 on a Content-Type that contains
    ["text/"] and rule 2 on a missing or empty header. *)
Definition rules_text_anywhere : list Rule :=
  [ (no_content, Absent);
    (type_missing_or_empty, JsonThenText);
    (type_is (fun c => includes c "json"), AsJson);
    (type_is (fun c => includes c "text/" || includes c "xml"), AsText);
    (type_is CONTENT_TYPES.BINARY_test, AsBinary) ].

(** [autoParseData] decodes a response as the rule set prescribes, with
    JSON as the default. *)
Definition follows_rules (P : Platform) (rules : list Rule) (this : ApiResponse)
    : Prop :=
  forall reads,
    autoParseData P this reads =
    decode P
      (first_rule rules AsJson (status (response this))
         (Headers.get (resp_headers (response this)) "Content-Type"))
      this reads.

(** The message [execute] gives the [Error] it throws for what a handler
    threw. *)
Definition chain_failure (t : Thrown) : Thrown :=
  ThrownError
    (mkError "Error"
       ("Interceptor handler failed: " ++
        match as_Error t with
        | Some e => err_message e
        | None => "Unknown error"
        end)).

(** What one transform of a chain makes of a value, stated on the
    transform alone: its result, or the chain's [Error] for what it
    threw. *)
Definition apply_handler {T} (h : Interceptor.Handler T) (x : T) : Completion T :=
  match h x with
  | Return y => Return y
  | Throw t => Throw (chain_failure t)
  end.

(** The next handler of a chain takes the result so far; a chain that
    has thrown stays thrown. *)
Definition and_then {T} (c : Completion T) (h : Interceptor.Handler T)
    : Completion T :=
  match c with
  | Return y => apply_handler h y
  | Throw e => Throw e
  end.

(** A transform that does not throw, as a handler. *)
Definition transform {T} (f : T -> T) : Interceptor.Handler T :=
  fun y => Return (f y).

(** Registering a list of handlers, first to last. *)
Definition use_all {T} (hs : list (Interceptor.Handler T)) (c : Interceptor.t T)
    : Interceptor.t T :=
  fold_left (fun c h => snd (Interceptor.use (Interceptor.Fn h) c)) hs c.

(** Every handle in the map was issued by the counter. *)
Definition well_formed {T} (c : Interceptor.t T) : Prop :=
  Forall (fun k => (k < Interceptor.nextId c)%nat)
         (JsMap.keys (Interceptor.handlers c)).

(** What a caller can do to a chain. *)
Inductive Op (T : Type) : Type :=
| OpUse (a : Interceptor.Arg T)
| OpReject (id : nat)
| OpClear.
Arguments OpUse {T} a.
Arguments OpReject {T} id.
Arguments OpClear {T}.

(** The handles a sequence of operations returns, in order (a [use] that
    throws returns none), and the chain it leaves. *)
Fixpoint run_ops {T} (ops : list (Op T)) (c : Interceptor.t T)
    : list nat * Interceptor.t T :=
  match ops with
  | [] => ([], c)
  | OpUse a :: r =>
      match Interceptor.use a c with
      | (Return id, c') => let (ids, c'') := run_ops r c' in (id :: ids, c'')
      | (Throw _, c') => run_ops r c'
      end
  | OpReject id :: r => run_ops r (Interceptor.reject id c)
  | OpClear :: r => run_ops r (Interceptor.clear c)
  end.

(** The entries [use_all] adds to the map: the handlers under consecutive
    handles from [n]. *)
Definition issued {T} (n : nat) (hs : list (Interceptor.Handler T))
    : JsMap.t (Interceptor.Handler T) :=
  combine (seq n (List.length hs)) hs.

(** A transport outcome that the default retry policy retries: a response
    whose status is in the default list, or a thrown [Error] that is not
    an abort. *)
Definition retryable_failure (o : FetchOutcome) : Prop :=
  match o with
  | Resolves r => In (status r) DEFAULT_RETRY_STATUSES
  | Rejects t => exists e, as_Error t = Some e /\ err_name e <> "AbortError"
  end.

(** A transport outcome that is the rejection of an aborted call. *)
Definition aborted (o : FetchOutcome) : Prop :=
  match o with
  | Resolves _ => False
  | Rejects t => exists e, as_Error t = Some e /\ err_name e = "AbortError"
  end.

(* ===================================================================== *)
(** ** The send loop as a policy: further specifications                  *)
(* ===================================================================== *)

(** Whether the loop body, with attempts left, goes on to another pass
    after this transport outcome: a response that is not ok and that
    [shouldRetryResponse] accepts, or an [Error] other than an abort that
    [shouldRetryError] accepts. *)
Definition policy_retries (settings : RetrySettings) (o : FetchOutcome) : bool :=
  match o with
  | Resolves r => negb (ok r) && shouldRetryResponse r settings
  | Rejects t =>
      match as_Error t with
      | Some e =>
          negb (String.eqb (err_name e) "AbortError") && shouldRetryError e settings
      | None => false
      end
  end.

(** What [send] ends with when a transport outcome is its last: the
    response as it is, the TIMEOUT error for an abort, the NETWORK_ERROR
    for any other [Error], the thrown value itself otherwise. *)
Definition settle (P : Platform) (this : ApiRequest) (o : FetchOutcome)
    : Completion Response :=
  match o with
  | Resolves r => Return r
  | Rejects t =>
      match as_Error t with
      | Some e =>
          if String.eqb (err_name e) "AbortError"
          then Throw (ThrownApiError (fromTimeout P (Some this)))
          else Throw (ThrownApiError (fromNetworkError P e (Some this)))
      | None => Throw t
      end
  end.

(** The waits of [k] consecutive retries that start at attempt index
    [attempt] and at the random draw [first_draw]. *)
Definition backoff_schedule (P : Platform) (d : Q) (attempt : Z)
    (first_draw : nat) (k : nat) : list Q :=
  map (fun j => backoff_delay d (attempt + Z.of_nat j)
                  (Math_random P (first_draw + j)))
      (seq 0 k).

(** A test double whose [new URL] always throws, as the platform's does
    for a relative URL without a base. *)
Definition platform_without_url
    (transport : nat -> string -> FetchInit -> FetchOutcome) : Platform :=
  mkPlatform string
    (fun _ _ => inl (mkError "TypeError" "Invalid URL"))
    (fun u k v => u ++ "&" ++ k ++ "=" ++ v)
    (fun u => u)
    (fun _ => "{}")
    TestDouble.parse
    (fun _ => "value")
    (fun s => s)
    transport
    (fun _ => 0%Q) TestDouble.draw_range
    0.

(** A transport that answers its first [n] calls with status [bad] and
    every later call with status [good]. *)
Definition answers_after (n : nat) (bad good : Z)
    : nat -> string -> FetchInit -> FetchOutcome :=
  fun k _ _ =>
    if Nat.ltb k n then Resolves (TestDouble.reply bad [] "")
    else Resolves (TestDouble.reply good [] "").

(** The two errors [send] constructs itself. *)
Definition timeout_or_network (e : ApiError) : Prop :=
  (code e = "TIMEOUT" /\ err_status e = 408)
  \/ (code e = "NETWORK_ERROR" /\ err_status e = 0).

(** What [send] can throw when [maxRetries] is not negative: one of its
    two errors, or a value that is not an [Error] and that the transport
    rejected with. *)
Definition thrown_by_send (P : Platform) (t : Thrown) : Prop :=
  (exists e, t = ThrownApiError e /\ timeout_or_network e /\ isRetryable e = true)
  \/ (exists v j u init, t = ThrownValue v /\ fetch P j u init = Rejects (ThrownValue v)).

(** The invariant of a chain in use: its handles are distinct and all
    come from its counter. *)
Definition chain_invariant {T} (c : Interceptor.t T) : Prop :=
  NoDup (JsMap.keys (Interceptor.handlers c)) /\ well_formed c.

(** Reading the property [k] of a header record (a JavaScript object):
    the value stored under exactly that key. *)
Definition record_get (r : list (string * string)) (k : string) : option string :=
  option_map snd (find (fun e => String.eqb (fst e) k) r).



(** The codes of the errors [request] can throw when its response chain
    does not fail. *)
Definition request_error_codes : list string :=
  ["TIMEOUT"; "NETWORK_ERROR"; "UNKNOWN_ERROR"].

(** The codes of the errors a decode can throw. *)
Definition parse_error_codes : list string :=
  ["JSON_PARSE_ERROR"; "TEXT_PARSE_ERROR"; "BLOB_PARSE_ERROR";
   "ARRAYBUFFER_PARSE_ERROR"].

(* ===================================================================== *)
(** ** The platform's checks on a header record                           *)
(* ===================================================================== *)

Fixpoint forall_chars (p : ascii -> bool) (s : string) : bool :=
  match s with
  | EmptyString => true
  | String c r => p c && forall_chars p r
  end.

(** HTTP whitespace: tab, LF, CR, space. *)
Definition is_http_whitespace (c : ascii) : bool :=
  existsb (Nat.eqb (nat_of_ascii c)) [9; 10; 13; 32]%nat.

(** A character of a token: a letter, a digit, or one of the marks
    [! # $ % & ' * + - . ^ _ ` | ~]. *)
Definition is_token_char (c : ascii) : bool :=
  let n := nat_of_ascii c in
  (Nat.leb 48 n && Nat.leb n 57)
  || (Nat.leb 65 n && Nat.leb n 90)
  || (Nat.leb 97 n && Nat.leb n 122)
  || existsb (Nat.eqb n) [33; 35; 36; 37; 38; 39; 42; 43; 45; 46; 94; 95; 96; 124; 126]%nat.

(** A header name is a non-empty token. *)
Definition header_name_valid (name : string) : bool :=
  string_truthy name && forall_chars is_token_char name.

(** A header value holds no NUL, LF or CR. *)
Definition header_value_valid (value : string) : bool :=
  forall_chars (fun c => negb (existsb (Nat.eqb (nat_of_ascii c)) [0; 10; 13]%nat))
    value.

Fixpoint strip_left (s : string) : string :=
  match s with
  | EmptyString => EmptyString
  | String c r => if is_http_whitespace c then strip_left r else s
  end.

Fixpoint strip_right (s : string) : string :=
  match s with
  | EmptyString => EmptyString
  | String c r =>
      match strip_right r with
      | EmptyString => if is_http_whitespace c then EmptyString else String c EmptyString
      | r' => String c r'
      end
  end.

(** The normal form of a value: without its leading and trailing HTTP
    whitespace. *)
Definition normalize_value (value : string) : string :=
  strip_right (strip_left value).

(** [new Headers(record)] as the platform runs it: each entry's value is
    normalized, an invalid name or value throws a [TypeError], a valid
    entry is appended. *)
Fixpoint Headers_fill (h : Headers.t) (init : list (string * string))
    : ErrorObj + Headers.t :=
  match init with
  | [] => inr h
  | (name, value) :: r =>
      if header_name_valid name && header_value_valid (normalize_value value)
      then Headers_fill (Headers.append h name (normalize_value value)) r
      else inl (mkError "TypeError" "Invalid header")
  end.

Definition new_Headers (init : list (string * string)) : ErrorObj + Headers.t :=
  Headers_fill Headers.empty init.

(** A header record the platform takes as it is: every name is valid and
    every value is valid and already in normal form. *)
Definition header_record_normal (init : list (string * string)) : bool :=
  forallb (fun kv => header_name_valid (fst kv)
                     && header_value_valid (snd kv)
                     && String.eqb (normalize_value (snd kv)) (snd kv))
          init.

(* ===================================================================== *)
(** * Properties                                                          *)
(* ===================================================================== *)

(** ** [Headers] *)

Lemma matches_own_name name value :
  Headers.matches name (toLowerCase name, value) = true.
Proof. unfold Headers.matches; simpl. apply String.eqb_refl. Qed.

Lemma filter_delete_nil h name :
  filter (Headers.matches name) (Headers.delete h name) = [].
Proof.
  unfold Headers.delete.
  induction h as [|e r IH]; simpl; [reflexivity|].
  destruct (Headers.matches name e) eqn:E; simpl; [assumption|].
  rewrite E. assumption.
Qed.

Lemma filter_absent_nil h name :
  Headers.has h name = false -> filter (Headers.matches name) h = [].
Proof.
  unfold Headers.has.
  induction h as [|e r IH]; simpl; [reflexivity|].
  intros H. apply orb_false_elim in H as [He Hr].
  rewrite He. auto.
Qed.

Lemma filter_replace_first h name value :
  Headers.has h name = true ->
  exists k, filter (Headers.matches name) (Headers.replace_first h name value)
            = [(k, value)].
Proof.
  unfold Headers.has.
  induction h as [|e r IH]; simpl; [discriminate|].
  destruct (Headers.matches name e) eqn:E; simpl.
  - intros _. exists (fst e).
    assert (Hm : Headers.matches name (fst e, value) = true)
      by (unfold Headers.matches in *; simpl; exact E).
    rewrite Hm, filter_delete_nil. reflexivity.
  - intros H. rewrite E. auto.
Qed.

(** After [set], [get] returns the value just written, whatever was
    stored under that name before. *)
Lemma get_set_same h name value :
  Headers.get (Headers.set h name value) name = Some value.
Proof.
  unfold Headers.get, Headers.set.
  destruct (Headers.has h name) eqn:E.
  - destruct (filter_replace_first h name value E) as [k ->]. reflexivity.
  - unfold Headers.append. rewrite filter_app, (filter_absent_nil _ _ E); simpl.
    rewrite matches_own_name. reflexivity.
Qed.

(** ** Body building *)

Lemma read_only_method m :
  existsb (String.eqb (method_name m)) READ_ONLY_METHODS = true
  <-> m = GET \/ m = HEAD.
Proof.
  split.
  - destruct m; simpl; intros H; try discriminate; auto.
  - intros [-> | ->]; reflexivity.
Qed.

(** C7.  For a request whose method is GET or HEAD, [createBody] returns
    [null] whatever payload the configuration carries, and leaves the
    request (its headers included) as it was. *)
Theorem createBody_read_only_null :
  forall (P : Platform) (this : ApiRequest),
    req_method this = GET \/ req_method this = HEAD ->
    createBody P this = (None, this).
Proof.
  intros P this H. unfold createBody.
  apply read_only_method in H. rewrite H. reflexivity.
Qed.

Lemma createBody_read_only_null_witness :
  let P := TestDouble.platform (TestDouble.always 200) in
  let this := new_ApiRequest P
                (TestDouble.config HEAD [] (BObject [("a", JNum 1)]) None) in
  createBody P this = (None, this).
Proof.
  intros P this. apply (createBody_read_only_null P this). right. reflexivity.
Defined.

(** C2, counterexample.  A POST of a plain object whose caller set
    [Content-Type: text/plain]: after [createBody] the header reads
    [application/json]. *)
Lemma content_type_kept_fails :
  ~ content_type_kept
      (TestDouble.platform (TestDouble.always 200))
      (new_ApiRequest (TestDouble.platform (TestDouble.always 200))
         (TestDouble.config POST [("Content-Type", "text/plain")]
            (BObject [("a", JNum 1)]) None)).
Proof.
  intros H. specialize (H "text/plain" eq_refl). vm_compute in H. discriminate.
Qed.

(** C2, as the code has it.  For a payload that is a plain object and a
    method other than GET and HEAD, the body sent is the JSON encoding of
    the object, and Content-Type is written unconditionally: afterwards it
    reads [application/json], whether or not the caller had set one. *)
Theorem createBody_object_json :
  forall (P : Platform) (this : ApiRequest) (fields : list (string * JsValue)),
    req_data this = BObject fields ->
    req_method this <> GET ->
    req_method this <> HEAD ->
    createBody P this =
      (Some (InitString (JSON_stringify P (JObj fields))),
       set_headers this
         (Headers.set (req_headers this) "Content-Type" "application/json"))
    /\ Headers.get (req_headers (snd (createBody P this))) "Content-Type"
       = Some "application/json".
Proof.
  intros P this fields Hd Hg Hh.
  assert (E : createBody P this =
      (Some (InitString (JSON_stringify P (JObj fields))),
       set_headers this
         (Headers.set (req_headers this) "Content-Type" "application/json"))).
  { unfold createBody. rewrite Hd.
    destruct (existsb _ READ_ONLY_METHODS) eqn:R.
    - apply read_only_method in R. tauto.
    - reflexivity. }
  split; [exact E|].
  rewrite E. simpl. apply get_set_same.
Qed.

Lemma createBody_object_json_witness :
  let P := TestDouble.platform (TestDouble.always 200) in
  let this := new_ApiRequest P
                (TestDouble.config POST [("Content-Type", "text/plain")]
                   (BObject [("a", JNum 1)]) None) in
  createBody P this =
    (Some (InitString (JSON_stringify P (JObj [("a", JNum 1)]))),
     set_headers this
       (Headers.set (req_headers this) "Content-Type" "application/json"))
  /\ Headers.get (req_headers (snd (createBody P this))) "Content-Type"
     = Some "application/json".
Proof.
  intros P this.
  apply (createBody_object_json P this [("a", JNum 1)]);
    [reflexivity | discriminate | discriminate].
Defined.

(** ** Backoff *)

Lemma exponential_delay_pos (d : Q) (attempt : Z) :
  (0 < d -> 0 < d * Qpower 2 attempt)%Q.
Proof.
  intros Hd. apply Qmult_lt_0_compat; [assumption|].
  apply Qpower_0_lt. reflexivity.
Qed.

Lemma jitter_bounds (e r : Q) :
  (0 < e -> 0 <= r -> r < 1 ->
   0 <= e * RETRY_DEFAULTS.JITTER_FACTOR * r
   /\ e + e * RETRY_DEFAULTS.JITTER_FACTOR * r <= e * (11 # 10))%Q.
Proof.
  intros He Hr0 Hr1. unfold RETRY_DEFAULTS.JITTER_FACTOR.
  assert (Ha : (0 < e * (1 # 10))%Q) by (apply Qmult_lt_0_compat; [assumption | reflexivity]).
  split.
  - apply Qmult_le_0_compat; [apply Qlt_le_weak; assumption | assumption].
  - assert (H : (e * (1 # 10) * r <= e * (1 # 10) * 1)%Q).
    { apply Qmult_le_l; [assumption | apply Qlt_le_weak; assumption]. }
    lra.
Qed.

(** C8, counterexample.  Base delay 1000 ms at attempt index 5 with a
    random draw of 0: the exponential delay is 32000 ms, the wait is the
    ceiling, 30000 ms, below the interval. *)
Lemma backoff_in_jitter_interval_fails :
  ~ backoff_in_jitter_interval 1000 5 0.
Proof.
  unfold backoff_in_jitter_interval. intros [H _].
  vm_compute in H. apply H. reflexivity.
Qed.

(** C8, as the code has it.  For a base delay [d > 0], any attempt index
    and any draw [r] in [0, 1), the wait is the minimum of
    [d * 2^i * (1 + 0.1 * r)] and 30000 ms: it never exceeds 30000 ms nor
    [d * 2^i * 1.1], it is at least the smaller of [d * 2^i] and 30000, and
    so it lies in [[d * 2^i, d * 2^i * 1.1]] whenever [d * 2^i] is at most
    30000. *)
Theorem backoff_delay_bounds :
  forall (d : Q) (attempt : Z) (r : Q),
    (0 < d)%Q -> (0 <= r)%Q -> (r < 1)%Q ->
    (backoff_delay d attempt r <= 30000
     /\ backoff_delay d attempt r <= d * Qpower 2 attempt * (11 # 10)
     /\ Qmin (d * Qpower 2 attempt) 30000 <= backoff_delay d attempt r
     /\ (d * Qpower 2 attempt <= 30000 ->
         d * Qpower 2 attempt <= backoff_delay d attempt r))%Q.
Proof.
  intros d attempt r Hd Hr0 Hr1. unfold backoff_delay, RETRY_DEFAULTS.MAX_DELAY.
  pose proof (exponential_delay_pos d attempt Hd) as He.
  destruct (jitter_bounds _ r He Hr0 Hr1) as [Hj0 Hj1].
  set (e := (d * Qpower 2 attempt)%Q) in *.
  set (j := (e * RETRY_DEFAULTS.JITTER_FACTOR * r)%Q) in *.
  repeat split.
  - apply Q.le_min_r.
  - eapply Qle_trans; [apply Q.le_min_l | exact Hj1].
  - apply Q.min_glb.
    + eapply Qle_trans; [apply Q.le_min_l | lra].
    + apply Q.le_min_r.
  - intros Hcap. apply Q.min_glb; lra.
Qed.

Lemma backoff_delay_bounds_witness :
  (backoff_delay 1000 5 (1 # 2) <= 30000
   /\ backoff_delay 1000 5 (1 # 2) <= 1000 * Qpower 2 5 * (11 # 10)
   /\ Qmin (1000 * Qpower 2 5) 30000 <= backoff_delay 1000 5 (1 # 2)
   /\ (1000 * Qpower 2 5 <= 30000 ->
       1000 * Qpower 2 5 <= backoff_delay 1000 5 (1 # 2)))%Q.
Proof.
  apply (backoff_delay_bounds 1000 5 (1 # 2)); reflexivity || discriminate.
Defined.

(** What [wait] sleeps for is the backoff delay of a draw in [0, 1): the
    bounds hold for the sleep that a run records. *)
Lemma wait_sleeps_within_bounds (P : Platform) (d : Q) (attempt : Z) (w : World) :
  (0 < d)%Q ->
  exists t,
    sleeps (wait P d attempt w) = (sleeps w ++ [t])%list
    /\ (t <= 30000 /\ t <= d * Qpower 2 attempt * (11 # 10)
        /\ Qmin (d * Qpower 2 attempt) 30000 <= t)%Q.
Proof.
  intros Hd. eexists. split; [reflexivity|].
  destruct (Math_random_range P (random_draws w)) as [H0 H1].
  pose proof (exponential_delay_pos d attempt Hd) as He.
  destruct (jitter_bounds _ _ He H0 H1) as [Hj0 Hj1].
  unfold backoff_delay, RETRY_DEFAULTS.MAX_DELAY.
  repeat split.
  - apply Q.le_min_r.
  - eapply Qle_trans; [apply Q.le_min_l | exact Hj1].
  - apply Q.min_glb.
    + eapply Qle_trans; [apply Q.le_min_l | lra].
    + apply Q.le_min_r.
Qed.

(** ** Auto decoding *)

(** C4, counterexample.  A 200 response with Content-Type
    [multipart/mixed; type=text/plain] and body [hello]: the header does
    not start with ["text/"], so the rule set with the prefix test selects
    JSON by default, which throws on that body; the code finds ["text/"]
    inside the header and returns the text. *)
Lemma follows_rules_text_prefix_fails :
  ~ follows_rules
      (TestDouble.platform (TestDouble.always 200))
      rules_text_prefix
      (mkApiResponse
         (TestDouble.reply 200
            [("Content-Type", "multipart/mixed; type=text/plain")] "hello")
         (new_ApiRequest (TestDouble.platform (TestDouble.always 200))
            (TestDouble.config GET [] BUndefined None))).
Proof.
  intros H. specialize (H 0%nat). vm_compute in H. discriminate.
Qed.

(** C4, as the code has it.  In auto mode the strategy is chosen by the
    ordered rules: (1) status 204 or 304: [undefined], the body unread;
    (2) Content-Type missing or empty: JSON, text when that throws;
    (3) Content-Type contains ["json"]: JSON; (4) Content-Type contains
    ["text/"] or ["xml"]: text; (5) Content-Type starts with [image],
    [video], [audio] or [application/octet-stream]: binary; (6) otherwise
    JSON. *)
Theorem autoParseData_follows_rules :
  forall (P : Platform) (this : ApiResponse),
    follows_rules P rules_text_anywhere this.
Proof.
  intros P this reads.
  unfold autoParseData, getContentType, rules_text_anywhere, first_rule,
    no_content, type_missing_or_empty, type_is,
    HTTP_STATUS.NO_CONTENT, HTTP_STATUS.NOT_MODIFIED,
    CONTENT_TYPES.JSON, CONTENT_TYPES.TEXT.
  destruct ((status (response this) =? 204) || (status (response this) =? 304));
    [reflexivity|].
  destruct (Headers.get (resp_headers (response this)) "Content-Type") as [c|];
    [|reflexivity].
  destruct (string_truthy c); simpl; [|reflexivity].
  destruct (includes c "json"); [reflexivity|].
  rewrite orb_false_r.
  destruct (includes c "text/" || includes c "xml"); [reflexivity|].
  destruct (CONTENT_TYPES.BINARY_test c); reflexivity.
Qed.

(** With status 204 or 304 the decode returns [undefined] and starts no
    read of the body. *)
Lemma autoParseData_no_content (P : Platform) (this : ApiResponse) (reads : nat) :
  status (response this) = 204 \/ status (response this) = 304 ->
  autoParseData P this reads = (Return (DValue JUndefined), reads).
Proof.
  intros [H | H]; unfold autoParseData; rewrite H; reflexivity.
Qed.

(** ** Construction of a client *)

(** C5, the code at the failing input.  [new Client({ timeout: 0 })]
    returns an instance: the guard [this.config.timeout && ...] is falsy
    at 0, so the comparison [<= 0] behind it is never made. *)
Theorem create_accepts_zero_timeout :
  exists this,
    Client.create (mkClientConfig None (Some 0) None None None) = Return this.
Proof. eexists. reflexivity. Qed.

(** The same guard on the empty string: [new Client({ baseURL: "" })]
    returns an instance although the string is not an http(s) URL. *)
Lemma create_accepts_empty_baseURL :
  exists this,
    Client.create (mkClientConfig (Some "") None None None None) = Return this.
Proof. eexists. reflexivity. Qed.

(** What the constructor does: it throws exactly for a negative timeout
    and for a non-empty base URL that does not start with [http://] or
    [https://]. *)
Lemma create_throws_iff (config : ClientConfig) :
  (exists e, Client.create config = Throw e)
  <-> (exists ms, cc_timeout config = Some ms /\ ms < 0)
      \/ (exists b, cc_baseURL config = Some b /\ b <> "" /\ http_url_test b = false).
Proof.
  unfold Client.create, Client.validateConfig; simpl.
  assert (T : match cc_timeout config with
              | Some ms => negb (ms =? 0) && (ms <=? 0)
              | None => false
              end = true
              <-> exists ms, cc_timeout config = Some ms /\ ms < 0).
  { destruct (cc_timeout config) as [ms|].
    - rewrite andb_true_iff, negb_true_iff, Z.eqb_neq, Z.leb_le. split.
      + intros [? ?]. exists ms. split; [reflexivity | lia].
      + intros (ms' & [= <-] & ?). lia.
    - split; [discriminate | intros (? & [=] & _)]. }
  assert (B : match cc_baseURL config with
              | Some b => string_truthy b && negb (http_url_test b)
              | None => false
              end = true
              <-> exists b, cc_baseURL config = Some b /\ b <> ""
                            /\ http_url_test b = false).
  { destruct (cc_baseURL config) as [b|].
    - rewrite andb_true_iff, negb_true_iff. split.
      + intros [Hb Hu]. exists b. repeat split; [|assumption].
        intros ->. discriminate.
      + intros (b' & [= <-] & Hne & Hu). split; [|assumption].
        destruct b; [congruence | reflexivity].
    - split; [discriminate | intros (? & [=] & _)]. }
  destruct (match cc_timeout config with Some _ => _ | None => _ end).
  - split; [intros _; left; apply T; reflexivity | intros _; eexists; reflexivity].
  - destruct (match cc_baseURL config with Some _ => _ | None => _ end).
    + split; [intros _; right; apply B; reflexivity | intros _; eexists; reflexivity].
    + split.
      * intros [e He]. discriminate.
      * intros [H | H]; [apply T in H | apply B in H]; discriminate.
Qed.

(** ** Interceptor chain *)

Section ChainFacts.
Context {T : Type}.
Implicit Types (c : Interceptor.t T) (h : Interceptor.Handler T)
  (hs : list (Interceptor.Handler T)) (m : JsMap.t (Interceptor.Handler T)).

Lemma set_fresh m k h :
  Forall (fun k' => k' <> k) (JsMap.keys m) ->
  JsMap.set m k h = (m ++ [(k, h)])%list.
Proof.
  induction m as [|[k' h'] r IH]; simpl; intros H; [reflexivity|].
  inversion H as [|? ? Hk Hr]; subst.
  destruct (Nat.eqb_spec k' k); [contradiction|].
  rewrite IH by assumption. reflexivity.
Qed.

Lemma delete_fresh m k :
  Forall (fun k' => k' <> k) (JsMap.keys m) -> JsMap.delete m k = m.
Proof.
  unfold JsMap.delete.
  induction m as [|[k' h'] r IH]; simpl; intros H; [reflexivity|].
  inversion H as [|? ? Hk Hr]; subst.
  destruct (Nat.eqb_spec k' k); [contradiction|]. simpl.
  rewrite IH by assumption. reflexivity.
Qed.

Lemma get_set_own m k h : JsMap.get (JsMap.set m k h) k = Some h.
Proof.
  induction m as [|[k' h'] r IH]; simpl.
  - rewrite Nat.eqb_refl. reflexivity.
  - destruct (Nat.eqb_spec k' k) as [->|Hne]; simpl.
    + rewrite Nat.eqb_refl. reflexivity.
    + destruct (Nat.eqb_spec k' k); [contradiction | assumption].
Qed.

Lemma keys_issued n hs : JsMap.keys (issued n hs) = seq n (List.length hs).
Proof.
  unfold JsMap.keys, issued. revert n.
  induction hs as [|h r IH]; intros n; simpl; [reflexivity|].
  rewrite IH. reflexivity.
Qed.

Lemma issued_app n hs1 hs2 :
  issued n (hs1 ++ hs2)
  = (issued n hs1 ++ issued (n + List.length hs1) hs2)%list.
Proof.
  unfold issued. revert n.
  induction hs1 as [|h r IH]; intros n; simpl.
  - rewrite Nat.add_0_r. reflexivity.
  - rewrite IH. replace (S n + List.length r)%nat with (n + S (List.length r))%nat by lia.
    reflexivity.
Qed.

Lemma well_formed_use c h :
  well_formed c -> well_formed (snd (Interceptor.use (Interceptor.Fn h) c)).
Proof.
  unfold well_formed; simpl. intros H.
  rewrite set_fresh.
  - unfold JsMap.keys. rewrite map_app. apply Forall_app. split.
    + eapply Forall_impl; [|exact H]. simpl. lia.
    + repeat constructor.
  - eapply Forall_impl; [|exact H]. simpl. lia.
Qed.

Lemma well_formed_create : well_formed (@Interceptor.create T).
Proof. constructor. Qed.

Lemma well_formed_reject c id : well_formed c -> well_formed (Interceptor.reject id c).
Proof.
  unfold well_formed, JsMap.keys, JsMap.delete; simpl.
  rewrite !Forall_map, !Forall_forall. intros H e He.
  apply filter_In in He. apply H, He.
Qed.

Lemma well_formed_clear c : well_formed (Interceptor.clear c).
Proof. constructor. Qed.

(** Registration appends: the map after [use_all] is the old map followed
    by the new handlers under consecutive handles. *)
Lemma use_all_appends hs : forall c,
  well_formed c ->
  Interceptor.handlers (use_all hs c)
    = (Interceptor.handlers c ++ issued (Interceptor.nextId c) hs)%list
  /\ Interceptor.nextId (use_all hs c) = (Interceptor.nextId c + List.length hs)%nat.
Proof.
  induction hs as [|h r IH]; intros c Hwf; simpl.
  - unfold issued; simpl. rewrite app_nil_r, Nat.add_0_r. auto.
  - destruct (IH _ (well_formed_use c h Hwf)) as [Hh Hn].
    unfold use_all in *. simpl in *. rewrite Hh, Hn. split; [|lia].
    rewrite set_fresh.
    + rewrite <- app_assoc. reflexivity.
    + eapply Forall_impl; [|exact Hwf]. simpl. lia.
Qed.

Lemma run_app m1 m2 (x : T) :
  Interceptor.run (m1 ++ m2)%list x
  = match Interceptor.run m1 x with
    | Return y => Interceptor.run m2 y
    | Throw e => Throw e
    end.
Proof.
  revert x. induction m1 as [|[k h] r IH]; intros x; simpl; [reflexivity|].
  destruct (h x); [apply IH | reflexivity].
Qed.

Lemma and_then_thrown hs (e : Thrown) :
  fold_left and_then hs (@Throw T e) = Throw e.
Proof. induction hs as [|h r IH]; simpl; auto. Qed.

(** Running the entries issued for [hs] is threading the value through
    [hs], whatever the handles are. *)
Lemma run_issued hs : forall n (x : T),
  Interceptor.run (issued n hs) x = fold_left and_then hs (Return x).
Proof.
  unfold issued.
  induction hs as [|h r IH]; intros n x; simpl; [reflexivity|].
  unfold apply_handler.
  destruct (h x) as [y|e]; [apply IH | rewrite and_then_thrown; reflexivity].
Qed.

(** [run] over a map is threading the value through the map's handlers
    in the order of its entries. *)
Lemma run_values m : forall (x : T),
  Interceptor.run m x = fold_left and_then (map snd m) (Return x).
Proof.
  induction m as [|[k h] r IH]; intros x; simpl; [reflexivity|].
  unfold apply_handler.
  destruct (h x) as [y|e]; [apply IH | rewrite and_then_thrown; reflexivity].
Qed.

Lemma run_then_issued m hs n (x : T) :
  Interceptor.run (m ++ issued n hs)%list x
  = fold_left and_then hs (Interceptor.run m x).
Proof.
  rewrite run_app. destruct (Interceptor.run m x).
  - apply run_issued.
  - rewrite and_then_thrown. reflexivity.
Qed.

Lemma delete_app m1 m2 k :
  JsMap.delete (m1 ++ m2)%list k = (JsMap.delete m1 k ++ JsMap.delete m2 k)%list.
Proof. unfold JsMap.delete. apply filter_app. Qed.

Lemma delete_issued_other n hs k :
  (k < n \/ n + List.length hs <= k)%nat -> JsMap.delete (issued n hs) k = issued n hs.
Proof.
  intros H. apply delete_fresh. rewrite keys_issued.
  apply Forall_forall. intros k' Hin. apply in_seq in Hin. lia.
Qed.

End ChainFacts.

(** C6.  On a chain whose handles all come from its counter, register
    the handlers [hs1], then [A], then [hs2].  [execute] applies to the
    value the handlers already in the chain and then [hs1], [A], [hs2],
    strictly in registration order, each transform taking the output of
    the one before; after [reject] of the handle [use] returned for [A]
    it applies the same transforms without [A].  Registering [f] then [g]
    on a new chain and executing [x] yields [g (f x)], and [g x] once
    [f]'s handle is removed. *)
Theorem execute_in_registration_order :
  forall (T : Type) (c : Interceptor.t T)
         (hs1 : list (Interceptor.Handler T)) (A : Interceptor.Handler T)
         (hs2 : list (Interceptor.Handler T)) (x : T),
    well_formed c ->
    let idA := (Interceptor.nextId c + List.length hs1)%nat in
    let c' := use_all (hs1 ++ A :: hs2) c in
    fst (Interceptor.use (Interceptor.Fn A) (use_all hs1 c)) = Return idA
    /\ Interceptor.execute c' x
       = fold_left and_then
           (map snd (Interceptor.handlers c) ++ hs1 ++ A :: hs2) (Return x)
    /\ Interceptor.execute (Interceptor.reject idA c') x
       = fold_left and_then
           (map snd (Interceptor.handlers c) ++ hs1 ++ hs2) (Return x)
    /\ (forall f g : T -> T,
          Interceptor.execute
            (use_all [transform f; transform g] Interceptor.create) x
          = Return (g (f x))
          /\ Interceptor.execute
               (Interceptor.reject 0%nat
                  (use_all [transform f; transform g] Interceptor.create)) x
             = Return (g x)).
Proof.
  intros T c hs1 A hs2 x Hwf idA c'.
  destruct (use_all_appends (hs1 ++ A :: hs2) c Hwf) as [Hh _].
  destruct (use_all_appends hs1 c Hwf) as [_ Hn1].
  unfold Interceptor.execute. split; [|split; [|split]].
  - simpl. rewrite Hn1. reflexivity.
  - subst c'. rewrite Hh, run_then_issued, run_values, <- fold_left_app.
    reflexivity.
  - subst c'. simpl. rewrite Hh.
    rewrite delete_app, delete_fresh.
    2:{ eapply Forall_impl; [|exact Hwf]. simpl. subst idA. lia. }
    change (A :: hs2) with ([A] ++ hs2)%list.
    rewrite !issued_app, !delete_app.
    rewrite (delete_issued_other _ hs1) by (subst idA; lia).
    rewrite (delete_issued_other _ hs2) by (subst idA; simpl; lia).
    replace (JsMap.delete (issued (Interceptor.nextId c + List.length hs1) [A]) idA)
      with (@nil (nat * Interceptor.Handler T)).
    2:{ unfold JsMap.delete, issued; simpl. subst idA.
        rewrite Nat.eqb_refl. reflexivity. }
    simpl. rewrite app_assoc, !run_then_issued, run_values, <- !fold_left_app.
    reflexivity.
  - intros f g. split; reflexivity.
Qed.

Lemma execute_in_registration_order_witness :
  let A : Interceptor.Handler nat := transform (fun n => n + 1)%nat in
  let B : Interceptor.Handler nat := transform (fun n => n * 10)%nat in
  let c' := use_all ([] ++ A :: [B]) Interceptor.create in
  fst (Interceptor.use (Interceptor.Fn A) (use_all [] Interceptor.create))
    = Return 0%nat
  /\ Interceptor.execute c' 4%nat = Return 50%nat
  /\ Interceptor.execute (Interceptor.reject 0%nat c') 4%nat = Return 40%nat
  /\ (forall f g : nat -> nat,
        Interceptor.execute
          (use_all [transform f; transform g] Interceptor.create) 4%nat
        = Return (g (f 4%nat))
        /\ Interceptor.execute
             (Interceptor.reject 0%nat
                (use_all [transform f; transform g] Interceptor.create)) 4%nat
           = Return (g 4%nat)).
Proof.
  intros A B.
  apply (execute_in_registration_order nat Interceptor.create [] A [B] 4%nat).
  constructor.
Defined.

(** The two-handler case in plain terms: with transforms that do not
    throw, registering [f] then [g] on a new chain and executing [x]
    returns [g (f x)], and [g x] once [f]'s handle is rejected. *)
Lemma execute_two_transforms (T : Type) (f g : T -> T) (x : T) :
  let A : Interceptor.Handler T := fun y => Return (f y) in
  let B : Interceptor.Handler T := fun y => Return (g y) in
  let c' := use_all [A; B] Interceptor.create in
  Interceptor.execute c' x = Return (g (f x))
  /\ Interceptor.execute (Interceptor.reject 0%nat c') x = Return (g x).
Proof. intros A B c'. split; reflexivity. Qed.

Lemma nextId_use_monotone {T} (a : Interceptor.Arg T) (c : Interceptor.t T) :
  (Interceptor.nextId c <= Interceptor.nextId (snd (Interceptor.use a c)))%nat.
Proof. destruct a; simpl; lia. Qed.

(** Whatever the operations, the handles they return start at the
    counter and go strictly up. *)
Lemma handles_increase {T} (ops : list (Op T)) : forall c : Interceptor.t T,
  Forall (fun id => (Interceptor.nextId c <= id)%nat) (fst (run_ops ops c))
  /\ StronglySorted lt (fst (run_ops ops c)).
Proof.
  induction ops as [|op r IH]; intros c; simpl.
  - split; constructor.
  - destruct op as [[h | v] | id | ]; simpl.
    + specialize (IH (Interceptor.mk
                        (JsMap.set (Interceptor.handlers c) (Interceptor.nextId c) h)
                        (S (Interceptor.nextId c)))).
      destruct (run_ops r _) as [ids c'']; simpl in *.
      destruct IH as [Hlow Hsorted]. split.
      * constructor; [lia|]. eapply Forall_impl; [|exact Hlow]. simpl. lia.
      * constructor; [assumption|]. eapply Forall_impl; [|exact Hlow]. simpl. lia.
    + apply IH.
    + apply (IH (Interceptor.reject id c)).
    + apply (IH (Interceptor.clear c)).
Qed.

(** C10.  [use] of a non-function throws a [TypeError] and leaves the
    chain as it was.  [use] of a function returns the current counter as
    the handle, stores the handler under it and increments the counter.
    Over any sequence of [use], [reject] and [clear] the handles returned
    are strictly increasing, so none is ever returned twice. *)
Theorem use_contract :
  forall (T : Type) (c : Interceptor.t T),
    (forall v,
        Interceptor.use (Interceptor.NotFn v) c
        = (Throw (ThrownError (mkError "TypeError" "Handler must be a function")), c))
    /\ (forall h,
          fst (Interceptor.use (Interceptor.Fn h) c) = Return (Interceptor.nextId c)
          /\ JsMap.get (Interceptor.handlers (snd (Interceptor.use (Interceptor.Fn h) c)))
                       (Interceptor.nextId c) = Some h
          /\ Interceptor.nextId (snd (Interceptor.use (Interceptor.Fn h) c))
             = S (Interceptor.nextId c))
    /\ (forall ops,
          StronglySorted lt (fst (run_ops ops c))
          /\ NoDup (fst (run_ops ops c))).
Proof.
  intros T c. split; [|split].
  - intros v. reflexivity.
  - intros h. simpl. split; [reflexivity|]. split; [apply get_set_own | reflexivity].
  - intros ops. destruct (handles_increase ops c) as [_ Hs]. split; [exact Hs|].
    clear -Hs. induction Hs as [|id ids Hs IH Hall]; constructor; [|assumption].
    intros Hin. rewrite Forall_forall in Hall. specialize (Hall _ Hin). lia.
Qed.

(** A handle is new also to the map when the chain is well formed: no
    entry is stored under the counter's current value. *)
Lemma next_handle_unused {T} (c : Interceptor.t T) :
  well_formed c -> ~ In (Interceptor.nextId c) (JsMap.keys (Interceptor.handlers c)).
Proof.
  unfold well_formed. rewrite Forall_forall. intros H Hin.
  specialize (H _ Hin). lia.
Qed.

(** ** The send loop *)

(** [createBody] writes to the headers only: the URL of the request is
    the same before and after. *)
Lemma buildUrl_after_fetch_init (P : Platform) (this : ApiRequest) :
  buildUrl P (snd (fetch_init P this)) = buildUrl P this.
Proof.
  unfold fetch_init, createBody.
  destruct (existsb _ READ_ONLY_METHODS || is_nullish (req_data this));
    [reflexivity|].
  destruct (isNativeBodyType (req_data this)); [reflexivity|].
  destruct (String.eqb (typeof (req_data this)) "object"); reflexivity.
Qed.

Lemma fetch_calls_wait (P : Platform) d attempt w :
  fetch_calls (wait P d attempt w) = fetch_calls w.
Proof. reflexivity. Qed.

Lemma default_retry_status_not_ok (r : Response) :
  In (status r) DEFAULT_RETRY_STATUSES ->
  ok r = false /\ existsb (Z.eqb (status r)) DEFAULT_RETRY_STATUSES = true.
Proof.
  unfold ok. intros H. split.
  - simpl in H. repeat (destruct H as [<- | H]; [reflexivity|]). contradiction.
  - apply existsb_exists. exists (status r). split; [assumption | apply Z.eqb_refl].
Qed.



(** The same over a whole run of [send]: if the transport invocation
    number [j] rejects with an abort whatever it is called with, and the
    run gets to make that invocation, then the run throws the TIMEOUT
    error and invocation [j] is its last. *)
Lemma send_attempts_abort_is_last (P : Platform) (settings : RetrySettings) (j : nat) :
  (forall url init, aborted (fetch P j url init)) ->
  forall remaining attempt lastError this w,
    (fetch_calls w <= j)%nat ->
    let '(c, this', w') := send_attempts P settings remaining attempt lastError this w in
    (j < fetch_calls w')%nat ->
    fetch_calls w' = S j
    /\ c = Throw (ThrownApiError (fromTimeout P (Some this'))).
Proof.
  intros Habort. induction remaining as [|k IH]; intros attempt lastError this w Hle.
  - simpl. lia.
  - simpl. unfold attempt_step.
    destruct (buildUrl P this) as [e | url].
    + unfold on_catch; simpl.
      destruct (String.eqb (err_name e) "AbortError"); [simpl; lia|].
      destruct (attempt <? rs_maxRetries settings); [|simpl; lia].
      destruct (shouldRetryError e settings); [|simpl; lia].
      apply IH. simpl. exact Hle.
    + destruct (fetch_init P this) as [init this1].
      pose proof (Habort url init) as Hj.
      destruct (Nat.eq_dec (fetch_calls w) j) as [Heq | Hne].
      * rewrite Heq. destruct (fetch P j url init) as [r | t]; [contradiction|].
        destruct Hj as (e & He & Hname).
        unfold on_catch. rewrite He, Hname. simpl. intros _. split; [lia | reflexivity].
      * destruct (fetch P (fetch_calls w) url init) as [r | t].
        -- destruct (negb (ok r) && (attempt <? rs_maxRetries settings)); [|simpl; lia].
           destruct (shouldRetryResponse r settings); [|simpl; lia].
           apply IH. simpl. lia.
        -- unfold on_catch. destruct (as_Error t) as [e|]; [|simpl; lia].
           destruct (String.eqb (err_name e) "AbortError"); [simpl; lia|].
           destruct (attempt <? rs_maxRetries settings); [|simpl; lia].
           destruct (shouldRetryError e settings); [|simpl; lia].
           apply IH. simpl. lia.
Qed.

(** The settings a bare number resolves to. *)
Lemma getRetrySettings_number (P : Platform) (this : ApiRequest) (N : Z) :
  req_retry this = Some (RetryNumber N) ->
  getRetrySettings this
  = mkRetrySettings N RETRY_DEFAULTS.DELAY (RetryStatuses DEFAULT_RETRY_STATUSES).
Proof. unfold getRetrySettings. intros ->. reflexivity. Qed.

(** The loop under the default status list when every transport outcome
    is a retryable failure: with [k] retries left after this pass it makes
    [k + 1] invocations, consults the policy and sleeps [k] times, and
    ends on the outcome of the last invocation. *)
Lemma send_attempts_all_fail (P : Platform) (N : Z) (d : Q) (url : string) :
  forall (k : nat) (attempt : Z) (lastError : option ErrorObj)
         (this : ApiRequest) (w : World),
    attempt + Z.of_nat k = N ->
    buildUrl P this = inr url ->
    (forall j u init,
        (fetch_calls w <= j <= fetch_calls w + k)%nat ->
        retryable_failure (fetch P j u init)) ->
    let '(c, this', w') :=
      send_attempts P (mkRetrySettings N d (RetryStatuses DEFAULT_RETRY_STATUSES))
        (S k) attempt lastError this w in
    fetch_calls w' = (fetch_calls w + S k)%nat
    /\ retry_checks w' = (retry_checks w + k)%nat
    /\ List.length (sleeps w') = (List.length (sleeps w) + k)%nat
    /\ exists init,
         match fetch P (fetch_calls w + k) url init with
         | Resolves r => c = Return r
         | Rejects t =>
             exists e, as_Error t = Some e
                       /\ c = Throw (ThrownApiError (fromNetworkError P e (Some this')))
         end.
Proof.
  induction k as [|k IH]; intros attempt lastError this w Hk Hurl Hfail.
  - (* the last pass: [attempt = maxRetries] *)
    simpl. unfold attempt_step. rewrite Hurl.
    destruct (fetch_init P this) as [init this1].
    pose proof (Hfail (fetch_calls w) url init ltac:(lia)) as Ho.
    assert (Hlt : (attempt <? N) = false) by (apply Z.ltb_ge; lia).
    rewrite !Nat.add_0_r.
    destruct (fetch P (fetch_calls w) url init) as [r | t] eqn:Hf; simpl in *.
    + rewrite Hlt, andb_false_r. simpl.
      repeat split; try lia. exists init. rewrite Hf. reflexivity.
    + destruct Ho as (e & He & Hname). unfold on_catch. rewrite He.
      apply String.eqb_neq in Hname. rewrite Hname. simpl. rewrite Hlt. simpl.
      repeat split; try lia. exists init. rewrite Hf. eauto.
  - (* a pass that is retried *)
    assert (Hlt : (attempt <? N) = true) by (apply Z.ltb_lt; lia).
    assert (Hnext :
      forall lastError' this1 w1,
        this1 = snd (fetch_init P this) ->
        fetch_calls w1 = S (fetch_calls w) ->
        retry_checks w1 = S (retry_checks w) ->
        List.length (sleeps w1) = S (List.length (sleeps w)) ->
        let '(c, this', w') :=
          send_attempts P (mkRetrySettings N d (RetryStatuses DEFAULT_RETRY_STATUSES))
            (S k) (attempt + 1) lastError' this1 w1 in
        fetch_calls w' = (fetch_calls w + S (S k))%nat
        /\ retry_checks w' = (retry_checks w + S k)%nat
        /\ List.length (sleeps w') = (List.length (sleeps w) + S k)%nat
        /\ exists init,
             match fetch P (fetch_calls w + S k) url init with
             | Resolves r => c = Return r
             | Rejects t =>
                 exists e, as_Error t = Some e
                           /\ c = Throw (ThrownApiError (fromNetworkError P e (Some this')))
             end).
    { intros lastError' this1 w1 -> Hc Hr Hs.
      specialize (IH (attempt + 1) lastError' (snd (fetch_init P this)) w1).
      destruct (send_attempts P _ (S k) (attempt + 1) lastError' _ w1)
        as [[c this'] w'].
      destruct IH as (A & B & C & D).
      - lia.
      - rewrite buildUrl_after_fetch_init. exact Hurl.
      - intros j u init Hj. apply Hfail. lia.
      - rewrite Hc, Hr, Hs in *.
        replace (fetch_calls w + S k)%nat with (S (fetch_calls w) + k)%nat by lia.
        repeat split; try lia. exact D. }
    change (send_attempts P ?s (S (S k)) attempt lastError this w)
      with (match attempt_step P s attempt lastError this w with
            | Continue lastError' this' w' =>
                send_attempts P s (S k) (attempt + 1) lastError' this' w'
            | Done c _ this' w' => (c, this', w')
            end).
    unfold attempt_step. rewrite Hurl.
    pose proof (Hfail (fetch_calls w) url (fst (fetch_init P this)) ltac:(lia)) as Ho.
    destruct (fetch_init P this) as [init this1] eqn:Hinit; simpl in Ho, Hnext.
    destruct (fetch P (fetch_calls w) url init) as [r | t]; simpl in Ho.
    + destruct (default_retry_status_not_ok r Ho) as [Hok Hin].
      unfold shouldRetryResponse. cbn [rs_maxRetries rs_shouldRetry rs_delay].
      rewrite Hok, Hlt, Hin. cbn [negb andb].
      apply Hnext; try reflexivity.
      simpl. rewrite length_app. simpl. lia.
    + destruct Ho as (e & He & Hname). unfold on_catch, shouldRetryError.
      cbn [rs_maxRetries rs_shouldRetry rs_delay]. rewrite He.
      apply String.eqb_neq in Hname. rewrite Hname, Hlt. cbn [negb].
      apply Hnext; try reflexivity.
      simpl. rewrite length_app. simpl. lia.
Qed.

(** C1.  For a retry policy given as a bare integer [N >= 0] and a
    request whose URL resolves, if every transport invocation of the run
    fails with a condition the default policy retries (a response whose
    status is in the default list, or a thrown [Error] other than an
    abort), then [send] makes exactly [N + 1] transport invocations, with
    [N] waits between them, and ends on the outcome of the last one: it
    returns that response, or throws the NETWORK_ERROR of that error. *)
Theorem send_bare_retry_invocations :
  forall (P : Platform) (this : ApiRequest) (w : World) (N : Z) (url : string),
    req_retry this = Some (RetryNumber N) ->
    0 <= N ->
    buildUrl P this = inr url ->
    (forall j u init,
        (fetch_calls w <= j <= fetch_calls w + Z.to_nat N)%nat ->
        retryable_failure (fetch P j u init)) ->
    let '(c, this', w') := send P this w in
    fetch_calls w' = (fetch_calls w + Z.to_nat N + 1)%nat
    /\ List.length (sleeps w') = (List.length (sleeps w) + Z.to_nat N)%nat
    /\ exists init,
         match fetch P (fetch_calls w + Z.to_nat N) url init with
         | Resolves r => c = Return r
         | Rejects t =>
             exists e, as_Error t = Some e
                       /\ c = Throw (ThrownApiError (fromNetworkError P e (Some this')))
         end.
Proof.
  intros P this w N url Hretry HN Hurl Hfail.
  unfold send. rewrite (getRetrySettings_number P this N Hretry). simpl rs_maxRetries.
  replace (Z.to_nat (N + 1)) with (S (Z.to_nat N)) by lia.
  pose proof (send_attempts_all_fail P N RETRY_DEFAULTS.DELAY url (Z.to_nat N) 0 None
                this w ltac:(lia) Hurl Hfail) as H.
  destruct (send_attempts P _ (S (Z.to_nat N)) 0 None this w) as [[c this'] w'].
  destruct H as (A & _ & C & D). repeat split; try lia. exact D.
Qed.

Lemma send_bare_retry_invocations_witness :
  let P := TestDouble.platform (TestDouble.always 503) in
  let this := new_ApiRequest P
                (TestDouble.config GET [] BUndefined (Some (RetryNumber 2))) in
  let '(c, this', w') := send P this initial_world in
  fetch_calls w' = (fetch_calls initial_world + Z.to_nat 2 + 1)%nat
  /\ List.length (sleeps w')
     = (List.length (sleeps initial_world) + Z.to_nat 2)%nat
  /\ exists init,
       match fetch P (fetch_calls initial_world + Z.to_nat 2)
               "https://api.test/users" init with
       | Resolves r => c = Return r
       | Rejects t =>
           exists e, as_Error t = Some e
                     /\ c = Throw (ThrownApiError (fromNetworkError P e (Some this')))
       end.
Proof.
  intros P this.
  apply (send_bare_retry_invocations P this initial_world 2 "https://api.test/users").
  - reflexivity.
  - lia.
  - reflexivity.
  - intros j u init _. simpl. tauto.
Defined.

(** For GET and HEAD the transport is handed no body: the [body] of the
    second argument of [fetch] is [null]. *)
Lemma fetch_init_read_only_no_body (P : Platform) (this : ApiRequest) :
  req_method this = GET \/ req_method this = HEAD ->
  init_body (fst (fetch_init P this)) = None.
Proof.
  intros H. unfold fetch_init, createBody.
  apply read_only_method in H. rewrite H. reflexivity.
Qed.

(** ** Error normalisation in the facade *)

(** [normalizeError] by the kind of what was thrown: an [ApiError] comes
    back as it is, any other [Error] becomes the NETWORK_ERROR of
    [fromNetworkError], anything else an UNKNOWN_ERROR with status 0. *)
Lemma normalizeError_cases (P : Platform) (req : ApiRequest) :
  (forall e, Client.normalizeError P (ThrownApiError e) req = e)
  /\ (forall e,
        Client.normalizeError P (ThrownError e) req = fromNetworkError P e (Some req)
        /\ code (Client.normalizeError P (ThrownError e) req) = "NETWORK_ERROR")
  /\ (forall v,
        code (Client.normalizeError P (ThrownValue v) req) = "UNKNOWN_ERROR"
        /\ err_status (Client.normalizeError P (ThrownValue v) req) = 0).
Proof. repeat split. Qed.

(** What the request chain or [send] throws leaves [request] as an
    [ApiError]: the [catch] clause normalises it. *)
Lemma request_normalizes_awaited_errors
    (P : Platform) (this : Client.t) (requestConfig : RequestConfig)
    (w w' : World) (error : Thrown) :
  Client.request_try P this
    (new_ApiRequest P (Client.mergeConfig this requestConfig)) w = (Throw error, w') ->
  Client.request P this requestConfig w
  = (Throw (ThrownApiError
              (Client.normalizeError P error
                 (new_ApiRequest P (Client.mergeConfig this requestConfig)))), w').
Proof. unfold Client.request. intros ->. reflexivity. Qed.

(** C9, the code at the failing input.  A client whose response chain
    holds one handler that throws [new Error("boom")], and a transport
    that answers 200: [request] rejects with the chain's plain [Error],
    which is not an [ApiError].  The promise of the response chain is
    returned from the [try] block without [await], so the [catch] clause
    that normalises never sees its rejection. *)
Theorem response_chain_error_escapes_raw :
  let P := TestDouble.platform (TestDouble.always 200) in
  let boom : Interceptor.Handler ApiResponse :=
    fun _ => Throw (ThrownError (mkError "Error" "boom")) in
  let client :=
    Client.mk None None [] None None Interceptor.create
      (snd (Interceptor.use (Interceptor.Fn boom) Interceptor.create)) in
  fst (Client.request P client
         (TestDouble.config GET [] BUndefined None) initial_world)
  = Throw (ThrownError (mkError "Error" "Interceptor handler failed: boom")).
Proof. vm_compute. reflexivity. Qed.

(** The same handler in the request chain is normalised: the sibling
    call is awaited inside the [try] block. *)
Lemma request_chain_error_is_normalized :
  let P := TestDouble.platform (TestDouble.always 200) in
  let boom : Interceptor.Handler ApiRequest :=
    fun _ => Throw (ThrownError (mkError "Error" "boom")) in
  let client :=
    Client.mk None None [] None None
      (snd (Interceptor.use (Interceptor.Fn boom) Interceptor.create))
      Interceptor.create in
  exists e,
    fst (Client.request P client
           (TestDouble.config GET [] BUndefined None) initial_world)
    = Throw (ThrownApiError e)
    /\ code e = "NETWORK_ERROR"
    /\ message e = "Network error: Interceptor handler failed: boom".
Proof. eexists. vm_compute. repeat split. Qed.

(** ** Further facts about the send loop *)

(** Whatever the policy and the transport, a run of the loop makes at
    most one transport invocation per pass: [send] never makes more than
    [maxRetries + 1]. *)
Lemma send_attempts_at_most (P : Platform) (settings : RetrySettings) :
  forall remaining attempt lastError this w,
    (fetch_calls (snd (send_attempts P settings remaining attempt lastError this w))
     <= fetch_calls w + remaining)%nat.
Proof.
  induction remaining as [|k IH]; intros attempt lastError this w; simpl; [lia|].
  unfold attempt_step.
  destruct (buildUrl P this) as [e | url].
  - unfold on_catch; simpl.
    destruct (String.eqb (err_name e) "AbortError"); [simpl; lia|].
    destruct (attempt <? rs_maxRetries settings); [|simpl; lia].
    destruct (shouldRetryError e settings); [|simpl; lia].
    etransitivity; [apply IH|]. simpl. lia.
  - destruct (fetch_init P this) as [init this1].
    destruct (fetch P (fetch_calls w) url init) as [r | t].
    + destruct (negb (ok r) && (attempt <? rs_maxRetries settings)); [|simpl; lia].
      destruct (shouldRetryResponse r settings); [|simpl; lia].
      etransitivity; [apply IH|]. simpl. lia.
    + unfold on_catch. destruct (as_Error t) as [e|]; [|simpl; lia].
      destruct (String.eqb (err_name e) "AbortError"); [simpl; lia|].
      destruct (attempt <? rs_maxRetries settings); [|simpl; lia].
      destruct (shouldRetryError e settings); [|simpl; lia].
      etransitivity; [apply IH|]. simpl. lia.
Qed.

(** When [new URL] throws, a pass fails inside the [try] block before the
    transport is called.  Under the default status list the [TypeError]
    is retried like a network failure: the loop makes all its passes and
    sleeps between them, the transport is never invoked, and [send]
    throws the NETWORK_ERROR of that error. *)
Lemma send_attempts_unresolvable_url (P : Platform) (N : Z) (d : Q) (e : ErrorObj) :
  err_name e <> "AbortError" ->
  forall (k : nat) (attempt : Z) (lastError : option ErrorObj)
         (this : ApiRequest) (w : World),
    attempt + Z.of_nat k = N ->
    buildUrl P this = inl e ->
    let '(c, this', w') :=
      send_attempts P (mkRetrySettings N d (RetryStatuses DEFAULT_RETRY_STATUSES))
        (S k) attempt lastError this w in
    fetch_calls w' = fetch_calls w
    /\ List.length (sleeps w') = (List.length (sleeps w) + k)%nat
    /\ c = Throw (ThrownApiError (fromNetworkError P e (Some this))).
Proof.
  intros Hname. apply String.eqb_neq in Hname.
  induction k as [|k IH]; intros attempt lastError this w Hk Hurl.
  - assert (Hlt : (attempt <? N) = false) by (apply Z.ltb_ge; lia).
    simpl. unfold attempt_step, on_catch. rewrite Hurl. simpl.
    rewrite Hname, Hlt. simpl. repeat split; lia.
  - assert (Hlt : (attempt <? N) = true) by (apply Z.ltb_lt; lia).
    change (send_attempts P ?s (S (S k)) attempt lastError this w)
      with (match attempt_step P s attempt lastError this w with
            | Continue lastError' this' w' =>
                send_attempts P s (S k) (attempt + 1) lastError' this' w'
            | Done c _ this' w' => (c, this', w')
            end).
    unfold attempt_step, on_catch, shouldRetryError. rewrite Hurl.
    cbn [as_Error rs_maxRetries rs_shouldRetry rs_delay].
    rewrite Hname, Hlt. cbn [negb].
    specialize (IH (attempt + 1) (Some e) this
                  (wait P (delay_or_default d) attempt (count_check w))
                  ltac:(lia) Hurl).
    destruct (send_attempts P _ (S k) (attempt + 1) (Some e) this _)
      as [[c this'] w'].
    destruct IH as (A & B & C). simpl in A, B.
    rewrite length_app in B. simpl in B. repeat split; try lia. exact C.
Qed.

(* ===================================================================== *)
(** * Further properties of the code                                      *)
(* ===================================================================== *)

(** ** The send loop, pass by pass *)

Lemma send_attempts_unfold (P : Platform) settings k attempt lastError this w :
  send_attempts P settings (S k) attempt lastError this w
  = match attempt_step P settings attempt lastError this w with
    | Continue lastError' this' w' =>
        send_attempts P settings k (attempt + 1) lastError' this' w'
    | Done c _ this' w' => (c, this', w')
    end.
Proof. reflexivity. Qed.

(** A pass whose outcome the policy retries, with attempts left, goes on:
    one more invocation, one more draw, one more sleep. *)
Lemma attempt_step_retried (P : Platform) settings attempt lastError this w url :
  buildUrl P this = inr url ->
  attempt < rs_maxRetries settings ->
  policy_retries settings (fetch P (fetch_calls w) url (fst (fetch_init P this))) = true ->
  exists lastError',
    attempt_step P settings attempt lastError this w
    = Continue lastError' (snd (fetch_init P this))
        (wait P (delay_or_default (rs_delay settings)) attempt
           (count_check (count_fetch w))).
Proof.
  intros Hurl Hlt Hp. apply Z.ltb_lt in Hlt.
  unfold attempt_step. rewrite Hurl.
  destruct (fetch_init P this) as [init this1]; simpl in *.
  destruct (fetch P (fetch_calls w) url init) as [r | t]; simpl in Hp.
  - apply andb_true_iff in Hp as [Hok Hs]. rewrite Hok, Hlt, Hs. simpl. eauto.
  - unfold on_catch. destruct (as_Error t) as [e|]; [|discriminate].
    apply andb_true_iff in Hp as [Hn Hs]. apply negb_true_iff in Hn.
    rewrite Hn, Hlt, Hs. eauto.
Qed.

(** A pass that is the last one allowed, or whose outcome the policy does
    not retry, leaves [send] with that outcome settled. *)
Lemma attempt_step_settles (P : Platform) settings attempt lastError this w url :
  buildUrl P this = inr url ->
  attempt = rs_maxRetries settings
  \/ policy_retries settings
       (fetch P (fetch_calls w) url (fst (fetch_init P this))) = false ->
  exists lastError' w',
    attempt_step P settings attempt lastError this w
    = Done (settle P (snd (fetch_init P this))
              (fetch P (fetch_calls w) url (fst (fetch_init P this))))
        lastError' (snd (fetch_init P this)) w'
    /\ fetch_calls w' = S (fetch_calls w)
    /\ random_draws w' = random_draws w
    /\ sleeps w' = sleeps w.
Proof.
  intros Hurl Hlast. unfold attempt_step. rewrite Hurl.
  destruct (fetch_init P this) as [init this1]; simpl in *.
  destruct (fetch P (fetch_calls w) url init) as [r | t]; simpl in *.
  - destruct (negb (ok r)) eqn:Hok; simpl.
    + destruct (attempt <? rs_maxRetries settings) eqn:Hlt.
      * destruct Hlast as [-> | Hs]; [rewrite Z.ltb_irrefl in Hlt; discriminate|].
        simpl in Hs. rewrite Hs. eauto 10.
      * eauto 10.
    + eauto 10.
  - unfold on_catch. destruct (as_Error t) as [e|]; [|eauto 10].
    destruct (String.eqb (err_name e) "AbortError") eqn:Hn; [eauto 10|].
    destruct (attempt <? rs_maxRetries settings) eqn:Hlt; [|eauto 10].
    destruct Hlast as [-> | Hs]; [rewrite Z.ltb_irrefl in Hlt; discriminate|].
    simpl in Hs. rewrite Hs. eauto 10.
Qed.

Lemma backoff_schedule_cons (P : Platform) d attempt first_draw k :
  backoff_schedule P d attempt first_draw (S k)
  = backoff_delay d attempt (Math_random P first_draw)
    :: backoff_schedule P d (attempt + 1) (S first_draw) k.
Proof.
  unfold backoff_schedule. simpl seq. simpl map.
  rewrite Z.add_0_r, Nat.add_0_r. f_equal.
  rewrite <- seq_shift, map_map. apply map_ext. intros j.
  f_equal; [lia | f_equal; lia].
Qed.

(** The loop stops at the first outcome that is not retried: [k] retried
    passes, then one that settles. *)
Lemma send_attempts_stops (P : Platform) (settings : RetrySettings) (url : string) :
  forall (k extra : nat) (attempt : Z) (lastError : option ErrorObj)
         (this : ApiRequest) (w : World),
    attempt + Z.of_nat k <= rs_maxRetries settings ->
    buildUrl P this = inr url ->
    (forall j u init,
        (j < k)%nat ->
        policy_retries settings (fetch P (fetch_calls w + j) u init) = true) ->
    (attempt + Z.of_nat k = rs_maxRetries settings
     \/ forall u init,
          policy_retries settings (fetch P (fetch_calls w + k) u init) = false) ->
    let '(c, this', w') :=
      send_attempts P settings (S (k + extra)) attempt lastError this w in
    fetch_calls w' = (fetch_calls w + k + 1)%nat
    /\ sleeps w'
       = (sleeps w ++ backoff_schedule P (delay_or_default (rs_delay settings))
                        attempt (random_draws w) k)%list
    /\ exists init, c = settle P this' (fetch P (fetch_calls w + k) url init).
Proof.
  induction k as [|k IH]; intros extra attempt lastError this w Hk Hurl Hre Hlast.
  - rewrite send_attempts_unfold.
    destruct (attempt_step_settles P settings attempt lastError this w url Hurl)
      as (le' & w' & -> & Hc & _ & Hs).
    { destruct Hlast as [H | H]; [left; lia | right].
      rewrite <- (Nat.add_0_r (fetch_calls w)). apply H. }
    rewrite Hc, Hs, !Nat.add_0_r. unfold backoff_schedule; simpl. rewrite app_nil_r.
    repeat split; [lia|]. eexists. reflexivity.
  - rewrite send_attempts_unfold.
    destruct (attempt_step_retried P settings attempt lastError this w url Hurl)
      as (le' & ->).
    { lia. }
    { rewrite <- (Nat.add_0_r (fetch_calls w)). apply Hre. lia. }
    change (S k + extra)%nat with (S (k + extra)).
    specialize (IH extra (attempt + 1) le' (snd (fetch_init P this))
                  (wait P (delay_or_default (rs_delay settings)) attempt
                     (count_check (count_fetch w)))).
    destruct (send_attempts P settings (S (k + extra)) (attempt + 1) le' _ _)
      as [[c this'] w'].
    destruct IH as (A & B & C).
    + lia.
    + rewrite buildUrl_after_fetch_init. exact Hurl.
    + intros j u init Hj. simpl.
      replace (S (fetch_calls w + j))%nat with (fetch_calls w + S j)%nat by lia.
      apply Hre. lia.
    + destruct Hlast as [H | H]; [left; lia | right]. intros u init. simpl.
      replace (S (fetch_calls w + k))%nat with (fetch_calls w + S k)%nat by lia.
      apply H.
    + simpl in A, B, C. repeat split.
      * lia.
      * rewrite B, backoff_schedule_cons, <- app_assoc. reflexivity.
      * replace (fetch_calls w + S k)%nat with (S (fetch_calls w + k))%nat by lia.
        exact C.
Qed.

(** X1.  [send] stops at the first transport outcome that is not
    retried.  If the URL resolves, the first [k] outcomes are ones the
    policy retries and outcome [k] is not (or [k] is [maxRetries]), then
    [send] makes exactly [k + 1] transport invocations, sleeps the [k]
    backoff delays of attempt indices 0 to [k - 1] in between, and ends
    with outcome [k] settled: a response, also a non-2xx one, is
    returned; an abort throws TIMEOUT, another [Error] NETWORK_ERROR. *)
Theorem send_stops_at_first_unretried :
  forall (P : Platform) (this : ApiRequest) (w : World) (k : nat) (url : string),
    Z.of_nat k <= rs_maxRetries (getRetrySettings this) ->
    buildUrl P this = inr url ->
    (forall j u init,
        (j < k)%nat ->
        policy_retries (getRetrySettings this)
          (fetch P (fetch_calls w + j) u init) = true) ->
    (Z.of_nat k = rs_maxRetries (getRetrySettings this)
     \/ forall u init,
          policy_retries (getRetrySettings this)
            (fetch P (fetch_calls w + k) u init) = false) ->
    let '(c, this', w') := send P this w in
    fetch_calls w' = (fetch_calls w + k + 1)%nat
    /\ sleeps w'
       = (sleeps w
          ++ backoff_schedule P
               (delay_or_default (rs_delay (getRetrySettings this)))
               0 (random_draws w) k)%list
    /\ exists init, c = settle P this' (fetch P (fetch_calls w + k) url init).
Proof.
  intros P this w k url Hk Hurl Hre Hlast. unfold send.
  set (settings := getRetrySettings this) in *.
  replace (Z.to_nat (rs_maxRetries settings + 1))
    with (S (k + (Z.to_nat (rs_maxRetries settings) - k)))%nat by lia.
  apply (send_attempts_stops P settings url k _ 0 None this w);
    [lia | assumption | assumption |].
  destruct Hlast as [H | H]; [left; lia | right; exact H].
Qed.

Lemma send_stops_at_first_unretried_witness :
  let P := TestDouble.platform (answers_after 2 500 200) in
  let this :=
    new_ApiRequest P
      (TestDouble.config GET [] BUndefined
         (Some (RetryObject
                  (mkRetryConfig 2 (Some 100%Q) (Some (RetryStatuses [500])))))) in
  let '(c, this', w') := send P this initial_world in
  fetch_calls w' = (fetch_calls initial_world + 2 + 1)%nat
  /\ sleeps w'
     = (sleeps initial_world
        ++ backoff_schedule P
             (delay_or_default (rs_delay (getRetrySettings this)))
             0 (random_draws initial_world) 2)%list
  /\ exists init,
       c = settle P this'
             (fetch P (fetch_calls initial_world + 2) "https://api.test/users" init).
Proof.
  intros P this.
  apply (send_stops_at_first_unretried P this initial_world 2 "https://api.test/users").
  - simpl. lia.
  - reflexivity.
  - intros j u init Hj. simpl.
    destruct j as [|[|j]]; [reflexivity | reflexivity | lia].
  - left. reflexivity.
Defined.

Lemma thrown_by_send_timeout (P : Platform) (this : ApiRequest) :
  thrown_by_send P (ThrownApiError (fromTimeout P (Some this))).
Proof. left. eexists. split; [reflexivity|]. split; [left; split|]; reflexivity. Qed.

Lemma thrown_by_send_network (P : Platform) (e : ErrorObj) (this : ApiRequest) :
  thrown_by_send P (ThrownApiError (fromNetworkError P e (Some this))).
Proof. left. eexists. split; [reflexivity|]. split; [right; split|]; reflexivity. Qed.

Lemma on_catch_thrown (P : Platform) settings attempt lastError t this w
      c lastError' this' w' :
  on_catch P settings attempt lastError t this w = Done c lastError' this' w' ->
  (exists j u init, fetch P j u init = Rejects t) \/ (exists e, t = ThrownError e) ->
  exists t', c = Throw t' /\ thrown_by_send P t'.
Proof.
  unfold on_catch. intros H Hsrc.
  destruct (as_Error t) as [e|] eqn:He.
  - destruct (String.eqb (err_name e) "AbortError").
    + injection H as <- _ _ _. eexists. split; [reflexivity | apply thrown_by_send_timeout].
    + destruct (attempt <? rs_maxRetries settings).
      * destruct (shouldRetryError e settings); [discriminate|].
        injection H as <- _ _ _. eexists. split; [reflexivity | apply thrown_by_send_network].
      * injection H as <- _ _ _. eexists. split; [reflexivity | apply thrown_by_send_network].
  - injection H as <- _ _ _. exists t. split; [reflexivity|].
    destruct t as [e | e | v]; try discriminate.
    destruct Hsrc as [(j & u & init & Hf) | (e & Hf)]; [|discriminate].
    right. exists v, j, u, init. auto.
Qed.

(** With as many passes left as attempts, the loop never falls through:
    what it throws is one of [send]'s two errors or the transport's own
    non-[Error] value. *)
Lemma send_attempts_throws (P : Platform) (settings : RetrySettings) :
  forall (k : nat) (attempt : Z) (lastError : option ErrorObj)
         (this : ApiRequest) (w : World) (t : Thrown),
    attempt + Z.of_nat k = rs_maxRetries settings ->
    fst (fst (send_attempts P settings (S k) attempt lastError this w)) = Throw t ->
    thrown_by_send P t.
Proof.
  induction k as [|k IH]; intros attempt lastError this w t Hk;
    rewrite send_attempts_unfold.
  - assert (Hlt : (attempt <? rs_maxRetries settings) = false)
      by (apply Z.ltb_ge; lia).
    destruct (attempt_step P settings attempt lastError this w)
      as [le' this' w' | c le' this' w'] eqn:Hstep.
    + exfalso. unfold attempt_step in Hstep.
      destruct (buildUrl P this) as [e | url].
      * unfold on_catch in Hstep; simpl in Hstep. rewrite Hlt in Hstep.
        destruct (String.eqb (err_name e) "AbortError"); discriminate.
      * destruct (fetch_init P this) as [init this1].
        destruct (fetch P (fetch_calls w) url init) as [r | t0].
        -- rewrite Hlt, andb_false_r in Hstep. discriminate.
        -- unfold on_catch in Hstep. rewrite Hlt in Hstep.
           destruct (as_Error t0) as [e|]; [|discriminate].
           destruct (String.eqb (err_name e) "AbortError"); discriminate.
    + simpl. intros ->. unfold attempt_step in Hstep.
      destruct (buildUrl P this) as [e | url].
      * destruct (on_catch_thrown _ _ _ _ _ _ _ _ _ _ _ Hstep) as (t' & [= <-] & Ht);
          [right; eauto | exact Ht].
      * destruct (fetch_init P this) as [init this1].
        destruct (fetch P (fetch_calls w) url init) as [r | t0] eqn:Hf.
        -- destruct (negb (ok r) && (attempt <? rs_maxRetries settings));
             [destruct (shouldRetryResponse r settings)|]; discriminate.
        -- destruct (on_catch_thrown _ _ _ _ _ _ _ _ _ _ _ Hstep) as (t' & [= <-] & Ht);
             [left; eauto | exact Ht].
  - destruct (attempt_step P settings attempt lastError this w)
      as [le' this' w' | c le' this' w'] eqn:Hstep.
    + apply IH. lia.
    + simpl. intros ->. unfold attempt_step in Hstep.
      destruct (buildUrl P this) as [e | url].
      * destruct (on_catch_thrown _ _ _ _ _ _ _ _ _ _ _ Hstep) as (t' & [= <-] & Ht);
          [right; eauto | exact Ht].
      * destruct (fetch_init P this) as [init this1].
        destruct (fetch P (fetch_calls w) url init) as [r | t0] eqn:Hf.
        -- destruct (negb (ok r) && (attempt <? rs_maxRetries settings));
             [destruct (shouldRetryResponse r settings)|]; discriminate.
        -- destruct (on_catch_thrown _ _ _ _ _ _ _ _ _ _ _ Hstep) as (t' & [= <-] & Ht);
             [left; eauto | exact Ht].
Qed.

(** X2.  What [send] throws.  With [maxRetries >= 0] the fallback
    [throw] after the loop is never reached: whatever the transport does,
    [send] throws either an [ApiError] of its own making, TIMEOUT with
    status 408 or NETWORK_ERROR with status 0, both flagged retryable,
    or the value, not an [Error], that the transport itself rejected
    with.  It never throws a plain [Error], and never an HTTP_ERROR for
    a response. *)
Theorem send_throws_classified :
  forall (P : Platform) (this : ApiRequest) (w : World) (t : Thrown),
    0 <= rs_maxRetries (getRetrySettings this) ->
    fst (fst (send P this w)) = Throw t ->
    thrown_by_send P t.
Proof.
  intros P this w t Hmax. unfold send.
  replace (Z.to_nat (rs_maxRetries (getRetrySettings this) + 1))
    with (S (Z.to_nat (rs_maxRetries (getRetrySettings this)))) by lia.
  apply send_attempts_throws. lia.
Qed.

Lemma send_throws_classified_witness :
  let P := TestDouble.platform (TestDouble.failing "TypeError") in
  let this := new_ApiRequest P
                (TestDouble.config GET [] BUndefined (Some (RetryNumber 1))) in
  thrown_by_send P
    (ThrownApiError (fromNetworkError P (mkError "TypeError" "failed") (Some this))).
Proof.
  intros P this.
  apply (send_throws_classified P this initial_world); [simpl; lia | reflexivity].
Defined.

(** X3.  A negative [maxRetries] makes [send] skip the loop: it invokes
    the transport not once and throws the plain
    [Error("Maximum retries exceeded")], which is not an [ApiError]. *)
Theorem send_negative_retries_never_fetches :
  forall (P : Platform) (this : ApiRequest) (w : World),
    rs_maxRetries (getRetrySettings this) < 0 ->
    send P this w
    = (Throw (ThrownError (mkError "Error" "Maximum retries exceeded")), this, w).
Proof.
  intros P this w H. unfold send.
  replace (Z.to_nat (rs_maxRetries (getRetrySettings this) + 1)) with 0%nat by lia.
  reflexivity.
Qed.

Lemma send_negative_retries_never_fetches_witness :
  let P := TestDouble.platform (TestDouble.always 200) in
  let this := new_ApiRequest P
                (TestDouble.config GET [] BUndefined (Some (RetryNumber (-1)))) in
  send P this initial_world
  = (Throw (ThrownError (mkError "Error" "Maximum retries exceeded")),
     this, initial_world).
Proof.
  intros P this.
  apply (send_negative_retries_never_fetches P this initial_world). simpl. lia.
Defined.

(** X4.  Whatever the policy, the transport and the request, one run of
    [send] makes at most [maxRetries + 1] transport invocations (none
    when [maxRetries] is negative). *)
Theorem send_invocations_bounded :
  forall (P : Platform) (this : ApiRequest) (w : World),
    (fetch_calls (snd (send P this w))
     <= fetch_calls w + Z.to_nat (rs_maxRetries (getRetrySettings this) + 1))%nat.
Proof. intros P this w. unfold send. apply send_attempts_at_most. Qed.

(** X5.  A URL that [new URL] rejects is retried like a network failure.
    With retry a bare number [N >= 0], when [buildUrl] throws (an [Error]
    other than an abort) every pass fails before the transport is called:
    [send] makes no transport invocation, still sleeps [N] backoff
    delays, and throws the NETWORK_ERROR of that error. *)
Theorem send_unresolvable_url :
  forall (P : Platform) (this : ApiRequest) (w : World) (N : Z) (e : ErrorObj),
    req_retry this = Some (RetryNumber N) ->
    0 <= N ->
    buildUrl P this = inl e ->
    err_name e <> "AbortError" ->
    let '(c, this', w') := send P this w in
    fetch_calls w' = fetch_calls w
    /\ List.length (sleeps w') = (List.length (sleeps w) + Z.to_nat N)%nat
    /\ c = Throw (ThrownApiError (fromNetworkError P e (Some this))).
Proof.
  intros P this w N e Hretry HN Hurl Hname. unfold send.
  rewrite (getRetrySettings_number P this N Hretry). simpl rs_maxRetries.
  replace (Z.to_nat (N + 1)) with (S (Z.to_nat N)) by lia.
  apply (send_attempts_unresolvable_url P N RETRY_DEFAULTS.DELAY e Hname
           (Z.to_nat N) 0 None this w); [lia | exact Hurl].
Qed.

Lemma send_unresolvable_url_witness :
  let P := platform_without_url (TestDouble.always 200) in
  let this := new_ApiRequest P
                (mkRequestConfig GET "/users" None [] None BUndefined None
                   (Some (RetryNumber 2)) None) in
  let '(c, this', w') := send P this initial_world in
  fetch_calls w' = fetch_calls initial_world
  /\ List.length (sleeps w') = (List.length (sleeps initial_world) + Z.to_nat 2)%nat
  /\ c = Throw (ThrownApiError
                  (fromNetworkError P (mkError "TypeError" "Invalid URL") (Some this))).
Proof.
  intros P this.
  apply (send_unresolvable_url P this initial_world 2 (mkError "TypeError" "Invalid URL"));
    [reflexivity | lia | reflexivity | discriminate].
Defined.

(** ** Backoff schedule *)

Lemma exponential_delay_doubles (d : Q) (attempt : Z) :
  (d * Qpower 2 (attempt + 1) == 2 * (d * Qpower 2 attempt))%Q.
Proof.
  rewrite Qpower_plus by discriminate.
  change (Qpower 2 1) with (2%Q). ring.
Qed.

(** X6.  Successive waits never shrink: for a base delay [d > 0] and any
    two draws in [0, 1), the wait after attempt [i + 1] is at least the
    wait after attempt [i]; the doubling outweighs the jitter. *)
Theorem backoff_delay_monotone :
  forall (d : Q) (attempt : Z) (r r' : Q),
    (0 < d)%Q -> (0 <= r)%Q -> (r < 1)%Q -> (0 <= r')%Q -> (r' < 1)%Q ->
    (backoff_delay d attempt r <= backoff_delay d (attempt + 1) r')%Q.
Proof.
  intros d attempt r r' Hd Hr0 Hr1 Hr0' Hr1'. unfold backoff_delay.
  apply Q.min_le_compat_r.
  pose proof (exponential_delay_pos d attempt Hd) as He.
  pose proof (exponential_delay_pos d (attempt + 1) Hd) as He'.
  destruct (jitter_bounds _ r He Hr0 Hr1) as [_ Hup].
  destruct (jitter_bounds _ r' He' Hr0' Hr1') as [Hlow _].
  pose proof (exponential_delay_doubles d attempt) as H2.
  set (e := (d * Qpower 2 attempt)%Q) in *.
  set (e' := (d * Qpower 2 (attempt + 1))%Q) in *.
  set (j := (e * RETRY_DEFAULTS.JITTER_FACTOR * r)%Q) in *.
  set (j' := (e' * RETRY_DEFAULTS.JITTER_FACTOR * r')%Q) in *.
  lra.
Qed.

Lemma backoff_delay_monotone_witness :
  (backoff_delay 1000 2 (9 # 10) <= backoff_delay 1000 (2 + 1) 0)%Q.
Proof.
  apply (backoff_delay_monotone 1000 2 (9 # 10) 0); reflexivity || discriminate.
Defined.



(** ** Error model *)

Lemma string_length_append (s1 s2 : string) :
  String.length (s1 ++ s2) = (String.length s1 + String.length s2)%nat.
Proof. induction s1 as [|c s1 IH]; simpl; [reflexivity | rewrite IH; reflexivity]. Qed.

Lemma parse_error_code_not_retryable (s : string) :
  existsb (String.eqb (s ++ "_PARSE_ERROR")) ["NETWORK_ERROR"; "TIMEOUT"] = false
  /\ String.eqb (s ++ "_PARSE_ERROR") "HTTP_ERROR" = false.
Proof.
  assert (L : forall x, String.length (s ++ "_PARSE_ERROR") = String.length x ->
                        (12 <= String.length x)%nat).
  { intros x <-. rewrite string_length_append. simpl. lia. }
  split.
  - simpl. rewrite orb_false_r. apply orb_false_intro; apply String.eqb_neq; intros H.
    + destruct s as [|c [|c' s]]; try discriminate.
      apply (f_equal String.length) in H. rewrite string_length_append in H.
      simpl in H. lia.
    + apply (f_equal String.length), L in H. simpl in H. lia.
  - apply String.eqb_neq. intros H.
    apply (f_equal String.length), L in H. simpl in H. lia.
Qed.

(** X8.  [isRetryable] of the errors the factories make: a timeout and a
    network error are retryable, an abort is not, an HTTP error is
    retryable exactly when its status is at least 500, and a parse error
    is never retryable, whatever the data type named. *)
Theorem factory_errors_isRetryable :
  forall (P : Platform),
    (forall req, isRetryable (fromTimeout P req) = true)
    /\ (forall e req, isRetryable (fromNetworkError P e req) = true)
    /\ (forall req, isRetryable (fromAbort P req) = false)
    /\ (forall r req, isRetryable (fromResponse P r req) = (500 <=? status r))
    /\ (forall dataType st e resp req,
          isRetryable (fromParseError P dataType st e resp req) = false).
Proof.
  intros P. repeat split.
  intros dataType st e resp req. unfold isRetryable, fromParseError, new_ApiError.
  cbn [code err_status].
  destruct (parse_error_code_not_retryable (toUpperCase dataType)) as [-> ->].
  reflexivity.
Qed.

(** ** Body building, further *)

Lemma matches_by_name name (e : string * string) value :
  Headers.matches name (fst e, value) = Headers.matches name e.
Proof. reflexivity. Qed.

Lemma delete_idempotent h name :
  Headers.delete (Headers.delete h name) name = Headers.delete h name.
Proof.
  unfold Headers.delete. induction h as [|e r IH]; simpl; [reflexivity|].
  destruct (Headers.matches name e) eqn:E; simpl; [exact IH|].
  rewrite E. simpl. rewrite IH. reflexivity.
Qed.

Lemma replace_first_idempotent h name value :
  Headers.replace_first (Headers.replace_first h name value) name value
  = Headers.replace_first h name value.
Proof.
  induction h as [|e r IH]; simpl; [reflexivity|].
  destruct (Headers.matches name e) eqn:E; simpl.
  - rewrite matches_by_name, E, delete_idempotent. reflexivity.
  - rewrite E, IH. reflexivity.
Qed.

Lemma has_replace_first h name value :
  Headers.has h name = true ->
  Headers.has (Headers.replace_first h name value) name = true.
Proof.
  unfold Headers.has. induction h as [|e r IH]; simpl; [discriminate|].
  destruct (Headers.matches name e) eqn:E; simpl.
  - intros _. rewrite matches_by_name, E. reflexivity.
  - intros H. rewrite E. simpl. auto.
Qed.

Lemma replace_first_appended h name value :
  Headers.has h name = false ->
  Headers.replace_first (Headers.append h name value) name value
  = Headers.append h name value.
Proof.
  unfold Headers.has, Headers.append.
  induction h as [|e r IH]; simpl.
  - intros _. rewrite matches_own_name. reflexivity.
  - intros H. apply orb_false_elim in H as [He Hr]. rewrite He, IH by assumption.
    reflexivity.
Qed.

Lemma has_append h name value :
  Headers.has (Headers.append h name value) name = true.
Proof.
  unfold Headers.has, Headers.append. rewrite existsb_app. simpl.
  rewrite matches_own_name. apply orb_true_iff. right. reflexivity.
Qed.

(** Writing the same header twice is writing it once. *)
Lemma set_idempotent h name value :
  Headers.set (Headers.set h name value) name value = Headers.set h name value.
Proof.
  unfold Headers.set at 2 3. destruct (Headers.has h name) eqn:E.
  - unfold Headers.set. rewrite (has_replace_first _ _ _ E).
    apply replace_first_idempotent.
  - unfold Headers.set. rewrite has_append. apply replace_first_appended. exact E.
Qed.

(** X9.  Building the body again changes nothing: [createBody] on the
    request it has already written to returns the same body and leaves
    the same headers, so every retry of [send] hands the transport the
    same method, headers, body and signal as the first attempt. *)
Theorem createBody_idempotent :
  forall (P : Platform) (this : ApiRequest),
    createBody P (snd (createBody P this))
    = (fst (createBody P this), snd (createBody P this))
    /\ fetch_init P (snd (fetch_init P this))
       = (fst (fetch_init P this), snd (fetch_init P this)).
Proof.
  intros P this.
  assert (H : createBody P (snd (createBody P this))
              = (fst (createBody P this), snd (createBody P this))).
  { unfold createBody.
    destruct (existsb _ READ_ONLY_METHODS || is_nullish (req_data this)) eqn:E1;
      cbn [fst snd]; [rewrite E1; reflexivity|].
    destruct (isNativeBodyType (req_data this)) eqn:E2;
      cbn [fst snd]; [rewrite E1, E2; reflexivity|].
    destruct (String.eqb (typeof (req_data this)) "object") eqn:E3;
      cbn [fst snd]; [|rewrite E1, E2, E3; reflexivity].
    unfold set_headers. cbn [req_method req_data req_headers req_config req_params
                              req_retry req_url req_timeout].
    rewrite E1, E2, E3, set_idempotent. reflexivity. }
  split; [exact H|].
  unfold fetch_init.
  destruct (createBody P this) as [body this1] eqn:E; simpl in *.
  rewrite H. simpl. f_equal. f_equal.
  unfold signal_of. replace (req_timeout this1) with (req_timeout this); [reflexivity|].
  change this1 with (snd (body, this1)). rewrite <- E. unfold createBody.
  destruct (existsb _ READ_ONLY_METHODS || is_nullish (req_data this));
    [reflexivity|].
  destruct (isNativeBodyType (req_data this)); [reflexivity|].
  destruct (String.eqb (typeof (req_data this)) "object"); reflexivity.
Qed.

(** X10.  [createBody] writes to the headers for object and array
    payloads only.  For any other payload (absent, a string, a native
    body such as [FormData] or a [Blob], a number, a boolean) the request
    comes back as it was, and a native payload sent with a method other
    than GET and HEAD is handed on as it is. *)
Theorem createBody_leaves_other_payloads :
  forall (P : Platform) (this : ApiRequest),
    (forall fields, req_data this <> BObject fields) ->
    (forall items, req_data this <> BArray items) ->
    snd (createBody P this) = this
    /\ (req_method this <> GET -> req_method this <> HEAD ->
        isNativeBodyType (req_data this) = true ->
        fst (createBody P this) = as_BodyInit (req_data this)
        /\ fst (createBody P this) <> None).
Proof.
  intros P this Ho Ha. split.
  - unfold createBody.
    destruct (existsb _ READ_ONLY_METHODS); simpl; [reflexivity|].
    destruct (req_data this) eqn:Hd; try reflexivity.
    + destruct c; reflexivity.
    + exfalso. eapply Ho. reflexivity.
    + exfalso. eapply Ha. reflexivity.
  - intros Hg Hh Hn. unfold createBody.
    destruct (existsb _ READ_ONLY_METHODS) eqn:R;
      [apply read_only_method in R; tauto|].
    destruct (req_data this) eqn:Hd; try discriminate; simpl.
    + split; [reflexivity | discriminate].
    + rewrite <- Hd in Hn. rewrite Hd in Hn. rewrite Hn.
      split; [reflexivity | discriminate].
Qed.

Lemma createBody_leaves_other_payloads_witness :
  let P := TestDouble.platform (TestDouble.always 200) in
  let this := new_ApiRequest P
                (TestDouble.config POST [("Content-Type", "multipart/form-data")]
                   (BNative FormData "form") None) in
  snd (createBody P this) = this
  /\ (req_method this <> GET -> req_method this <> HEAD ->
      isNativeBodyType (req_data this) = true ->
      fst (createBody P this) = as_BodyInit (req_data this)
      /\ fst (createBody P this) <> None).
Proof.
  intros P this.
  apply (createBody_leaves_other_payloads P this); discriminate.
Defined.

(** ** Interceptor chain, further *)

Section ChainMore.
Context {T : Type}.
Implicit Types (c : Interceptor.t T) (h : Interceptor.Handler T)
  (hs : list (Interceptor.Handler T)) (m : JsMap.t (Interceptor.Handler T)).

Lemma run_throws_chain_failure m : forall (x : T) (t : Thrown),
  Interceptor.run m x = Throw t ->
  exists h y t0,
    In h (map snd m) /\ h y = Throw t0 /\ t = chain_failure t0.
Proof.
  induction m as [|[k h] r IH]; intros x t; simpl; [discriminate|].
  destruct (h x) as [y | t0] eqn:Hh.
  - intros H. destruct (IH _ _ H) as (h' & y' & t' & Hin & Hy & Ht).
    exists h', y', t'. auto.
  - intros [= <-]. exists h, x, t0. auto.
Qed.

Lemma run_stops m1 m2 k h (x y : T) (t0 : Thrown) :
  Interceptor.run m1 x = Return y ->
  h y = Throw t0 ->
  Interceptor.run (m1 ++ (k, h) :: m2)%list x = Throw (chain_failure t0).
Proof.
  intros H1 Hh. rewrite run_app, H1. simpl. rewrite Hh. reflexivity.
Qed.

Lemma keys_delete m k :
  JsMap.keys (JsMap.delete m k)
  = filter (fun k' => negb (Nat.eqb k' k)) (JsMap.keys m).
Proof.
  unfold JsMap.keys, JsMap.delete.
  induction m as [|[k' h'] r IH]; simpl; [reflexivity|].
  destruct (Nat.eqb k' k); simpl; rewrite IH; reflexivity.
Qed.

Lemma NoDup_filter_keys (f : nat -> bool) (l : list nat) :
  NoDup l -> NoDup (filter f l).
Proof.
  induction 1 as [|a l Hin Hnd IH]; simpl; [constructor|].
  destruct (f a); [|assumption].
  constructor; [|assumption]. intros H. apply filter_In in H. tauto.
Qed.

Lemma chain_invariant_create : chain_invariant (@Interceptor.create T).
Proof. split; constructor. Qed.

Lemma chain_invariant_use c (a : Interceptor.Arg T) :
  chain_invariant c -> chain_invariant (snd (Interceptor.use a c)).
Proof.
  intros [Hnd Hwf]. destruct a as [h | v]; [|split; assumption].
  split; [|apply well_formed_use; assumption].
  simpl. rewrite set_fresh.
  - unfold JsMap.keys. rewrite map_app. simpl.
    apply NoDup_app; [exact Hnd | repeat constructor; intros [] |].
    intros k Hin [<- | []]. apply (next_handle_unused c Hwf). exact Hin.
  - eapply Forall_impl; [|exact Hwf]. simpl. lia.
Qed.

Lemma chain_invariant_reject c id :
  chain_invariant c -> chain_invariant (Interceptor.reject id c).
Proof.
  intros [Hnd Hwf]. split; [|apply well_formed_reject; assumption].
  simpl. rewrite keys_delete. apply NoDup_filter_keys. exact Hnd.
Qed.

Lemma chain_invariant_clear c : chain_invariant (Interceptor.clear c).
Proof. split; constructor. Qed.

Lemma chain_invariant_run_ops (ops : list (Op T)) : forall c,
  chain_invariant c -> chain_invariant (snd (run_ops ops c)).
Proof.
  induction ops as [|op r IH]; intros c Hc; simpl; [exact Hc|].
  destruct op as [a | id | ].
  - pose proof (chain_invariant_use c a Hc) as Hu.
    destruct (Interceptor.use a c) as [[id | t] c'] eqn:E; simpl in Hu.
    + specialize (IH c' Hu). destruct (run_ops r c'). exact IH.
    + apply IH. exact Hu.
  - apply IH, chain_invariant_reject, Hc.
  - apply IH, chain_invariant_clear.
Qed.

Lemma length_delete_present m k :
  NoDup (JsMap.keys m) -> In k (JsMap.keys m) ->
  S (List.length (JsMap.delete m k)) = List.length m.
Proof.
  unfold JsMap.delete.
  induction m as [|[k' h'] r IH]; simpl; intros Hnd Hin; [contradiction|].
  inversion Hnd as [|? ? Hnotin Hnd']; subst.
  destruct (Nat.eqb_spec k' k) as [-> | Hne]; simpl.
  - f_equal. change (filter _ r) with (JsMap.delete r k).
    rewrite delete_fresh; [reflexivity|].
    apply Forall_forall. intros k' Hk' ->. contradiction.
  - f_equal. apply IH; [assumption|]. destruct Hin; [contradiction | assumption].
Qed.

End ChainMore.

(** X11.  Whatever a handler throws, [execute] throws a plain [Error]
    whose message is ["Interceptor handler failed: "] followed by the
    message of what the handler threw (["Unknown error"] when that was
    not an [Error]): the thrown object itself, an [ApiError] included, is
    not passed on. *)
Theorem execute_wraps_handler_failure :
  forall (T : Type) (c : Interceptor.t T) (x : T) (t : Thrown),
    Interceptor.execute c x = Throw t ->
    exists h y t0,
      In h (map snd (Interceptor.handlers c))
      /\ h y = Throw t0
      /\ t = chain_failure t0.
Proof. intros T c x t. apply run_throws_chain_failure. Qed.

Lemma execute_wraps_handler_failure_witness :
  let boom : Interceptor.Handler nat :=
    fun _ => Throw (ThrownApiError
                      (mkApiError "HTTP_ERROR" 401 "Unauthorized" None None 0)) in
  let c := use_all [fun n => Return (n + 1)%nat; boom] Interceptor.create in
  exists h y t0,
    In h (map snd (Interceptor.handlers c))
    /\ h y = Throw t0
    /\ ThrownError (mkError "Error" "Interceptor handler failed: Unauthorized")
       = chain_failure t0.
Proof.
  intros boom c.
  apply (execute_wraps_handler_failure nat c 4%nat). reflexivity.
Defined.

(** X12.  The chain stops at the first handler that throws: when the
    handlers before [h] return [y] and [h y] throws, [execute] throws the
    wrapped failure of [h] whatever handlers are registered after it;
    none of them is applied. *)
Theorem execute_stops_at_first_failure :
  forall (T : Type) (c : Interceptor.t T)
         (m1 m2 : JsMap.t (Interceptor.Handler T)) (k : nat)
         (h : Interceptor.Handler T) (x y : T) (t0 : Thrown),
    Interceptor.handlers c = (m1 ++ (k, h) :: m2)%list ->
    Interceptor.run m1 x = Return y ->
    h y = Throw t0 ->
    Interceptor.execute c x = Throw (chain_failure t0).
Proof.
  intros T c m1 m2 k h x y t0 Hc H1 Hh. unfold Interceptor.execute.
  rewrite Hc. eapply run_stops; eassumption.
Qed.

Lemma execute_stops_at_first_failure_witness :
  let boom : Interceptor.Handler nat :=
    fun _ => Throw (ThrownValue (JStr "boom")) in
  let later : Interceptor.Handler nat := fun n => Return (n * 10)%nat in
  let c := use_all [boom; later] Interceptor.create in
  Interceptor.execute c 4%nat = Throw (chain_failure (ThrownValue (JStr "boom"))).
Proof.
  intros boom later c.
  apply (execute_stops_at_first_failure nat c [] [(1%nat, later)] 0%nat boom
           4%nat 4%nat (ThrownValue (JStr "boom")));
    reflexivity.
Defined.

(** X13.  [size] counts the live handlers.  On any chain reached from a
    new one by [use], [reject] and [clear]: a [use] of a function makes
    the size one more; [reject] of a handle in the map makes it one less
    and keeps every other entry; [reject] of a handle not in the map
    (never issued, already rejected, or cleared away) leaves the chain as
    it is; after [clear] the size is 0 and the counter is kept. *)
Theorem size_counts_live_handlers :
  forall (T : Type) (ops : list (Op T)),
    let c := snd (run_ops ops Interceptor.create) in
    (forall h,
        Interceptor.size (snd (Interceptor.use (Interceptor.Fn h) c))
        = S (Interceptor.size c))
    /\ (forall id,
          In id (JsMap.keys (Interceptor.handlers c)) ->
          S (Interceptor.size (Interceptor.reject id c)) = Interceptor.size c
          /\ forall id', id' <> id ->
               JsMap.get (Interceptor.handlers (Interceptor.reject id c)) id'
               = JsMap.get (Interceptor.handlers c) id')
    /\ (forall id,
          ~ In id (JsMap.keys (Interceptor.handlers c)) ->
          Interceptor.reject id c = c)
    /\ Interceptor.size (Interceptor.clear c) = 0%nat
    /\ Interceptor.isEmpty (Interceptor.clear c) = true
    /\ Interceptor.nextId (Interceptor.clear c) = Interceptor.nextId c.
Proof.
  intros T ops c.
  destruct (chain_invariant_run_ops ops _ (@chain_invariant_create T)) as [Hnd Hwf].
  fold c in Hnd, Hwf.
  split; [|split; [|split; [|repeat split]]].
  - intros h. unfold Interceptor.size. simpl. rewrite set_fresh.
    + rewrite length_app. simpl. lia.
    + eapply Forall_impl; [|exact Hwf]. simpl. lia.
  - intros id Hin. split.
    + unfold Interceptor.size. simpl. apply length_delete_present; assumption.
    + intros id' Hne. simpl. clear -Hne. unfold JsMap.delete.
      induction (Interceptor.handlers c) as [|[k h] r IH]; simpl; [reflexivity|].
      destruct (Nat.eqb_spec k id) as [-> | Hk]; simpl.
      * destruct (Nat.eqb_spec id id'); [congruence | exact IH].
      * rewrite IH. reflexivity.
  - intros id Hnot. unfold Interceptor.reject. rewrite delete_fresh.
    + destruct c; reflexivity.
    + apply Forall_forall. intros k Hk ->. contradiction.
Qed.

(** ** The facade *)

(** Whatever the number of passes, an [ApiError] that leaves the loop is
    one of the two [send] makes. *)
Lemma send_attempts_api_errors (P : Platform) (settings : RetrySettings) :
  forall (remaining : nat) (attempt : Z) (lastError : option ErrorObj)
         (this : ApiRequest) (w : World) (e : ApiError),
    fst (fst (send_attempts P settings remaining attempt lastError this w))
    = Throw (ThrownApiError e) ->
    timeout_or_network e.
Proof.
  induction remaining as [|k IH]; intros attempt lastError this w e;
    [simpl; discriminate|].
  rewrite send_attempts_unfold.
  destruct (attempt_step P settings attempt lastError this w)
    as [le' this' w' | c le' this' w'] eqn:Hstep; [apply IH|].
  simpl. intros ->. unfold attempt_step in Hstep.
  destruct (buildUrl P this) as [e0 | url].
  - unfold on_catch in Hstep; simpl in Hstep.
    destruct (String.eqb (err_name e0) "AbortError").
    + injection Hstep as <- _ _ _. left. split; reflexivity.
    + destruct (attempt <? rs_maxRetries settings);
        [destruct (shouldRetryError e0 settings); [discriminate|]|];
        injection Hstep as <- _ _ _; right; split; reflexivity.
  - destruct (fetch_init P this) as [init this1].
    destruct (fetch P (fetch_calls w) url init) as [r | t0].
    + destruct (negb (ok r) && (attempt <? rs_maxRetries settings));
        [destruct (shouldRetryResponse r settings)|]; discriminate.
    + unfold on_catch in Hstep. destruct (as_Error t0) as [e0|] eqn:He.
      * destruct (String.eqb (err_name e0) "AbortError").
        -- injection Hstep as <- _ _ _. left. split; reflexivity.
        -- destruct (attempt <? rs_maxRetries settings);
             [destruct (shouldRetryError e0 settings); [discriminate|]|];
             injection Hstep as <- _ _ _; right; split; reflexivity.
      * destruct t0; discriminate.
Qed.

Lemma normalizeError_code (P : Platform) (t : Thrown) (req : ApiRequest) :
  match t with ThrownApiError e => timeout_or_network e | _ => True end ->
  In (code (Client.normalizeError P t req)) request_error_codes.
Proof.
  destruct t as [e | e | v]; simpl.
  - auto.
  - intros [[-> _] | [-> _]]; auto.
  - auto.
Qed.



(** On a record the platform takes as it is, the constructor of
    [Headers] does not throw and builds what [Headers.of_record] builds. *)
Lemma Headers_fill_normal (init : list (string * string)) : forall h,
  header_record_normal init = true ->
  Headers_fill h init
  = inr (fold_left (fun h kv => Headers.append h (fst kv) (snd kv)) init h).
Proof.
  induction init as [|[name value] r IH]; intros h H; simpl in *; [reflexivity|].
  apply andb_true_iff in H as [H Hr].
  apply andb_true_iff in H as [H Hn]. apply andb_true_iff in H as [Hname Hvalue].
  apply String.eqb_eq in Hn. rewrite Hn, Hname, Hvalue. simpl. apply IH, Hr.
Qed.

Lemma new_Headers_normal (init : list (string * string)) :
  header_record_normal init = true ->
  new_Headers init = inr (Headers.of_record init).
Proof. apply Headers_fill_normal. Qed.

Lemma request_throws_codes (P : Platform) (this : Client.t)
      (requestConfig : RequestConfig) (w : World) (t : Thrown) :
  (forall r, exists r',
      Interceptor.execute (Client.interceptors_response this) r = Return r') ->
  fst (Client.request P this requestConfig w) = Throw t ->
  exists e, t = ThrownApiError e /\ In (code e) request_error_codes.
Proof.
  intros Hresp. unfold Client.request, Client.request_try.
  set (apiRequest := new_ApiRequest P (Client.mergeConfig this requestConfig)).
  destruct (Interceptor.execute (Client.interceptors_request this) apiRequest)
    as [processed | t1] eqn:Hreq.
  - destruct (send P processed w) as [[[raw | t2] processed'] w'] eqn:Hsend.
    + simpl. destruct (Hresp (mkApiResponse raw processed')) as [r' ->]. discriminate.
    + simpl. intros [= <-]. eexists. split; [reflexivity|].
      apply normalizeError_code. destruct t2 as [e | e | v]; auto.
      apply (send_attempts_api_errors P (getRetrySettings processed)
               (Z.to_nat (rs_maxRetries (getRetrySettings processed) + 1))
               0 None processed w).
      unfold send in Hsend. rewrite Hsend. reflexivity.
  - simpl. intros [= <-]. eexists. split; [reflexivity|].
    destruct (run_throws_chain_failure _ _ _ Hreq) as (h & y & t0 & _ & _ & ->).
    simpl. auto.
Qed.

(** X15.  For a request whose merged header record the platform takes
    as it is (valid names, values valid and in normal form), so that the
    constructor of [ApiRequest] does not throw, and with a response chain
    that does not fail: everything [request] throws is an [ApiError], and
    its code is TIMEOUT, NETWORK_ERROR or UNKNOWN_ERROR; [request] never
    throws an HTTP_ERROR for a response and never an ABORTED error. *)
Theorem request_throws_three_codes :
  forall (P : Platform) (this : Client.t) (requestConfig : RequestConfig)
         (w : World) (t : Thrown),
    header_record_normal (cfg_headers (Client.mergeConfig this requestConfig)) = true ->
    (forall r, exists r',
        Interceptor.execute (Client.interceptors_response this) r = Return r') ->
    fst (Client.request P this requestConfig w) = Throw t ->
    new_Headers (cfg_headers (Client.mergeConfig this requestConfig))
    = inr (req_headers (new_ApiRequest P (Client.mergeConfig this requestConfig)))
    /\ exists e, t = ThrownApiError e /\ In (code e) request_error_codes.
Proof.
  intros P this requestConfig w t Hh Hresp Ht. split.
  - apply new_Headers_normal, Hh.
  - apply (request_throws_codes P this requestConfig w t Hresp Ht).
Qed.

Lemma request_throws_three_codes_witness :
  let P := TestDouble.platform (TestDouble.failing "AbortError") in
  let client := Client.mk None (Some 50) [("Accept", "application/json")] None None
                  Interceptor.create Interceptor.create in
  let config := TestDouble.config GET [("X-Trace", "1")] BUndefined None in
  new_Headers (cfg_headers (Client.mergeConfig client config))
  = inr (req_headers (new_ApiRequest P (Client.mergeConfig client config)))
  /\ exists e,
       ThrownApiError
         (fromTimeout P (Some (new_ApiRequest P (Client.mergeConfig client config))))
       = ThrownApiError e
       /\ In (code e) request_error_codes.
Proof.
  intros P client config.
  apply (request_throws_three_codes P client config initial_world).
  - reflexivity.
  - intros r. exists r. reflexivity.
  - reflexivity.
Defined.

(** ** Decoding, further *)

Lemma parse_error_shape (P : Platform) (this : ApiResponse) (dataType : string)
      (e0 : ErrorObj) :
  In dataType ["json"; "text"; "blob"; "arrayBuffer"] ->
  exists e,
    parse_error P this dataType e0 = ThrownApiError e
    /\ In (code e) parse_error_codes
    /\ err_status e = status (response this)
    /\ err_response e = Some (WrappedResponse this)
    /\ isRetryable e = false.
Proof.
  intros H. eexists. split; [reflexivity|].
  simpl in H. destruct H as [<- | [<- | [<- | [<- | []]]]];
    repeat split; simpl; auto.
Qed.

Ltac decoder_throws :=
  match goal with
  | |- context [match ?x with inl _ => _ | inr _ => _ end] => destruct x
  | |- context [if ?b then _ else _] => destruct b
  end.

Lemma decoder_throws_parse_error (P : Platform) (this : ApiResponse) (reads : nat)
      (t : Thrown) :
  fst (json P this reads) = Throw t
  \/ fst (text P this reads) = Throw t
  \/ fst (blob P this reads) = Throw t
  \/ fst (arrayBuffer P this reads) = Throw t ->
  exists dataType e0,
    In dataType ["json"; "text"; "blob"; "arrayBuffer"]
    /\ t = parse_error P this dataType e0.
Proof.
  unfold json, text, blob, arrayBuffer.
  intros [H | [H | [H | H]]]; revert H; repeat decoder_throws; simpl;
    intros [= <-]; do 2 eexists; (split; [|reflexivity]); simpl; auto.
Qed.

Lemma autoParseData_throws_parse_error (P : Platform) (this : ApiResponse)
      (reads : nat) (t : Thrown) :
  fst (autoParseData P this reads) = Throw t ->
  exists dataType e0,
    In dataType ["json"; "text"; "blob"; "arrayBuffer"]
    /\ t = parse_error P this dataType e0.
Proof.
  unfold autoParseData.
  destruct ((status (response this) =? HTTP_STATUS.NO_CONTENT)
            || (status (response this) =? HTTP_STATUS.NOT_MODIFIED));
    [discriminate|].
  destruct (getContentType this) as [ct|].
  - destruct (includes ct CONTENT_TYPES.JSON);
      [|destruct (existsb (includes ct) CONTENT_TYPES.TEXT);
        [|destruct (CONTENT_TYPES.BINARY_test ct)]];
      intros H; eapply decoder_throws_parse_error; eauto.
  - unfold try_catch. destruct (json P this reads) as [[d | t1] reads'];
      [discriminate|].
    intros H. eapply decoder_throws_parse_error. right. left. exact H.
Qed.

Lemma getData_throws_shape (P : Platform) (this : ApiResponse) (reads : nat)
      (t : Thrown) :
  fst (getData P this reads) = Throw t ->
  exists e,
    t = ThrownApiError e
    /\ In (code e) parse_error_codes
    /\ err_status e = status (response this)
    /\ err_response e = Some (WrappedResponse this)
    /\ isRetryable e = false.
Proof.
  intros H.
  assert (Hs : exists dataType e0,
             In dataType ["json"; "text"; "blob"; "arrayBuffer"]
             /\ t = parse_error P this dataType e0).
  { unfold getData in H.
    destruct (cfg_responseType (req_config (request this))) as [[| | | |]|];
      try (apply autoParseData_throws_parse_error in H; exact H);
      eapply decoder_throws_parse_error; eauto. }
  destruct Hs as (dataType & e0 & Hin & ->).
  exact (parse_error_shape P this dataType e0 Hin).
Qed.

(** X16.  Every failure of a decode is an [ApiError] made by
    [fromParseError]: whatever mode [getData] runs in, what it throws
    has one of the four parse error codes, the status of the response,
    the wrapped response itself, and is not retryable.  No raw exception
    of the body readers or of [JSON.parse] gets out. *)
Theorem getData_throws_parse_errors :
  forall (P : Platform) (this : ApiResponse) (reads : nat) (t : Thrown),
    fst (getData P this reads) = Throw t ->
    exists e,
      t = ThrownApiError e
      /\ In (code e) parse_error_codes
      /\ err_status e = status (response this)
      /\ err_response e = Some (WrappedResponse this)
      /\ isRetryable e = false.
Proof. intros P this reads t. apply getData_throws_shape. Qed.

Lemma getData_throws_parse_errors_witness :
  let P := TestDouble.platform (TestDouble.always 200) in
  let this :=
    mkApiResponse
      (TestDouble.reply 200 [("Content-Type", "application/json")] "{broken")
      (new_ApiRequest P (TestDouble.config GET [] BUndefined None)) in
  exists e,
    parse_error P this "json" (mkError "SyntaxError" "Unexpected token")
    = ThrownApiError e
    /\ In (code e) parse_error_codes
    /\ err_status e = status (response this)
    /\ err_response e = Some (WrappedResponse this)
    /\ isRetryable e = false.
Proof.
  intros P this.
  apply (getData_throws_parse_errors P this 0%nat). reflexivity.
Defined.

Lemma execute_throws_codes (P : Platform) (this : Client.t)
      (requestConfig : RequestConfig) (w : World) (t : Thrown) :
  (forall r, exists r',
      Interceptor.execute (Client.interceptors_response this) r = Return r') ->
  fst (Client.execute P this requestConfig w) = Throw t ->
  exists e,
    t = ThrownApiError e
    /\ In (code e) (request_error_codes ++ parse_error_codes)%list.
Proof.
  intros Hresp. unfold Client.execute.
  destruct (Client.request P this requestConfig w) as [[r | t1] w'] eqn:Hreq; cbn [fst].
  - intros H. destruct (getData_throws_shape P r 0%nat t H) as (e & -> & Hc & _).
    exists e. split; [reflexivity|]. apply in_or_app. right. exact Hc.
  - intros [= <-].
    destruct (request_throws_codes P this requestConfig w t1 Hresp) as (e & -> & Hc).
    { rewrite Hreq. reflexivity. }
    exists e. split; [reflexivity|]. apply in_or_app. left. exact Hc.
Qed.

(** X17.  The public path: for a request whose merged header record the
    platform takes as it is (so that the constructor of [ApiRequest] does
    not throw) and with a response chain that does not fail, [execute],
    which every verb method runs, throws nothing but [ApiError]; the
    error comes from [request] or from the decode. *)
Theorem execute_throws_only_ApiError :
  forall (P : Platform) (this : Client.t) (requestConfig : RequestConfig)
         (w : World) (t : Thrown),
    header_record_normal (cfg_headers (Client.mergeConfig this requestConfig)) = true ->
    (forall r, exists r',
        Interceptor.execute (Client.interceptors_response this) r = Return r') ->
    fst (Client.execute P this requestConfig w) = Throw t ->
    new_Headers (cfg_headers (Client.mergeConfig this requestConfig))
    = inr (req_headers (new_ApiRequest P (Client.mergeConfig this requestConfig)))
    /\ exists e,
         t = ThrownApiError e
         /\ In (code e) (request_error_codes ++ parse_error_codes)%list.
Proof.
  intros P this requestConfig w t Hh Hresp Ht. split.
  - apply new_Headers_normal, Hh.
  - apply (execute_throws_codes P this requestConfig w t Hresp Ht).
Qed.

Lemma execute_throws_only_ApiError_witness :
  let P := TestDouble.platform (TestDouble.failing "TypeError") in
  let client := Client.mk None None [("Accept", "application/json")]
                  (Some (RetryNumber 0)) None
                  Interceptor.create Interceptor.create in
  let config := TestDouble.config GET [] BUndefined None in
  new_Headers (cfg_headers (Client.mergeConfig client config))
  = inr (req_headers (new_ApiRequest P (Client.mergeConfig client config)))
  /\ exists e,
       ThrownApiError
         (fromNetworkError P (mkError "TypeError" "failed")
            (Some (new_ApiRequest P (Client.mergeConfig client config))))
       = ThrownApiError e
       /\ In (code e) (request_error_codes ++ parse_error_codes)%list.
Proof.
  intros P client config.
  apply (execute_throws_only_ApiError P client config initial_world).
  - reflexivity.
  - intros r. exists r. reflexivity.
  - reflexivity.
Defined.

(** X18.  The text fallback of auto mode reads the body a second time.
    With no Content-Type, when the first read returns a text that is not
    blank and that [JSON.parse] rejects, [autoParseData] calls
    [response.text()] again and ends with what that second read gives:
    its text, or TEXT_PARSE_ERROR when it rejects, which is what a body
    that can be read only once does; the text of the first read is not
    returned. *)
Theorem auto_fallback_reads_body_twice :
  forall (P : Platform) (this : ApiResponse) (reads : nat)
         (body : string) (e1 : ErrorObj),
    Headers.get (resp_headers (response this)) "Content-Type" = None ->
    status (response this) <> 204 ->
    status (response this) <> 304 ->
    body_text (response this) reads = inr body ->
    string_truthy (String_trim P body) = true ->
    JSON_parse P body = inl e1 ->
    autoParseData P this reads
    = (match body_text (response this) (S reads) with
       | inl e2 => Throw (parse_error P this "text" e2)
       | inr s => Return (DValue (JStr s))
       end, S (S reads)).
Proof.
  intros P this reads body e1 Hct H204 H304 Hread Htrim Hparse.
  unfold autoParseData, getContentType, HTTP_STATUS.NO_CONTENT,
    HTTP_STATUS.NOT_MODIFIED.
  rewrite Hct.
  apply Z.eqb_neq in H204, H304. rewrite H204, H304. cbn [orb].
  unfold try_catch, json, text. cbv beta.
  rewrite Hread, Htrim, Hparse. cbn [negb].
  destruct (body_text (response this) (S reads)); reflexivity.
Qed.

Lemma auto_fallback_reads_body_twice_witness :
  let P := TestDouble.platform (TestDouble.always 200) in
  let once : Response :=
    mkResponse 200 "OK" Headers.empty
      (fun k => match k with
                | O => inr "hello"
                | S _ => inl (mkError "TypeError" "body stream already read")
                end)
      (fun _ => inr "hello") (fun _ => inr "hello") in
  let this := mkApiResponse once
                (new_ApiRequest P (TestDouble.config GET [] BUndefined None)) in
  autoParseData P this 0%nat
  = (match body_text (response this) 1%nat with
     | inl e2 => Throw (parse_error P this "text" e2)
     | inr s => Return (DValue (JStr s))
     end, 2%nat).
Proof.
  intros P once this.
  apply (auto_fallback_reads_body_twice P this 0%nat "hello"
           (mkError "SyntaxError" "Unexpected token"));
    reflexivity || discriminate.
Defined.

(** ** Configuration merging *)

Lemma record_get_set r k v k' :
  record_get (record_set r k v) k'
  = if String.eqb k k' then Some v else record_get r k'.
Proof.
  unfold record_get.
  induction r as [|[k0 v0] rest IH]; simpl; [destruct (String.eqb k k'); reflexivity|].
  destruct (String.eqb_spec k0 k) as [-> | Hne]; simpl.
  - destruct (String.eqb k k'); reflexivity.
  - destruct (String.eqb_spec k0 k') as [-> | Hne'].
    + destruct (String.eqb_spec k k'); [congruence | reflexivity].
    + exact IH.
Qed.

Lemma record_get_snoc l k0 v0 k :
  record_get (l ++ [(k0, v0)])%list k
  = match record_get l k with
    | Some v => Some v
    | None => if String.eqb k0 k then Some v0 else None
    end.
Proof.
  unfold record_get. induction l as [|[k1 v1] l IH]; simpl; [destruct (String.eqb k0 k); reflexivity|].
  destruct (String.eqb k1 k); [reflexivity | exact IH].
Qed.

Lemma record_get_spread b : forall a k,
  record_get (record_spread a b) k
  = match record_get (rev b) k with
    | Some v => Some v
    | None => record_get a k
    end.
Proof.
  unfold record_spread.
  induction b as [|[k0 v0] b IH]; intros a k; simpl; [reflexivity|].
  rewrite IH, record_get_snoc, record_get_set.
  destruct (record_get (rev b) k); [reflexivity|].
  destruct (String.eqb k0 k); reflexivity.
Qed.

(** X19.  Merged headers, key by key: in the configuration [mergeConfig]
    builds, the header under a key is the per-call value when the call
    gives one (the last one, if it lists the key more than once) and the
    instance's default otherwise; the response type is the call's, else
    the instance's, else [auto]. *)
Theorem mergeConfig_headers_per_call_wins :
  forall (this : Client.t) (requestConfig : RequestConfig) (k : string),
    record_get (cfg_headers (Client.mergeConfig this requestConfig)) k
    = match record_get (rev (cfg_headers requestConfig)) k with
      | Some v => Some v
      | None => record_get (Client.headers this) k
      end
    /\ cfg_responseType (Client.mergeConfig this requestConfig)
       = Some (match cfg_responseType requestConfig with
               | Some rt => rt
               | None => match Client.responseType this with
                         | Some rt => rt
                         | None => RTauto
                         end
               end).
Proof.
  intros this requestConfig k. split.
  - apply record_get_spread.
  - unfold Client.mergeConfig; simpl.
    destruct (cfg_responseType requestConfig); reflexivity.
Qed.

(** X20.  Header names are merged by exact key but sent case
    insensitively.  For an instance whose only default header is [k1]
    and a call whose only header is [k2], both with valid names of the
    same lower-case form and with values valid and in normal form, the
    constructor of [Headers] does not throw, and: when the keys are
    equal the request carries the per-call value alone; when they differ
    in letter case the per-call value does not replace the default, and
    the request's [Headers] hold both, read back as ["v1, v2"]. *)
Theorem merged_header_case_variants :
  forall (P : Platform) (this : Client.t) (requestConfig : RequestConfig)
         (k1 k2 v1 v2 : string),
    Client.headers this = [(k1, v1)] ->
    cfg_headers requestConfig = [(k2, v2)] ->
    header_record_normal [(k1, v1); (k2, v2)] = true ->
    toLowerCase k1 = toLowerCase k2 ->
    new_Headers (cfg_headers (Client.mergeConfig this requestConfig))
    = inr (req_headers (new_ApiRequest P (Client.mergeConfig this requestConfig)))
    /\ Headers.get
         (req_headers (new_ApiRequest P (Client.mergeConfig this requestConfig))) k1
       = if String.eqb k1 k2 then Some v2 else Some (v1 ++ ", " ++ v2).
Proof.
  intros P this requestConfig k1 k2 v1 v2 Hc Hr Hn Hlow. split.
  - apply new_Headers_normal.
    unfold Client.mergeConfig; simpl. rewrite Hc, Hr. unfold record_spread; simpl.
    simpl in Hn. rewrite andb_true_r in Hn. apply andb_true_iff in Hn as [H1 H2].
    destruct (String.eqb_spec k1 k2) as [<- | Hne]; simpl.
    + apply andb_true_iff in H1 as [H1 _]. apply andb_true_iff in H1 as [H1 _].
      apply andb_true_iff in H2 as [H2 H2n]. apply andb_true_iff in H2 as [_ H2v].
      rewrite H1, H2v, H2n. reflexivity.
    + rewrite H1, H2. reflexivity.
  - unfold new_ApiRequest, Client.mergeConfig; simpl.
    rewrite Hc, Hr. unfold record_spread; simpl.
    destruct (String.eqb k1 k2); unfold Headers.of_record, Headers.get; simpl;
      unfold Headers.matches; simpl.
    + rewrite <- Hlow, String.eqb_refl. reflexivity.
    + rewrite <- Hlow, !String.eqb_refl. reflexivity.
Qed.

Lemma merged_header_case_variants_witness :
  let P := TestDouble.platform (TestDouble.always 200) in
  let client := Client.mk None None [("content-type", "text/plain")] None None
                  Interceptor.create Interceptor.create in
  let config := TestDouble.config POST [("Content-Type", "text/csv")]
                  (BString "a,b") None in
  new_Headers (cfg_headers (Client.mergeConfig client config))
  = inr (req_headers (new_ApiRequest P (Client.mergeConfig client config)))
  /\ Headers.get
       (req_headers (new_ApiRequest P (Client.mergeConfig client config)))
       "content-type"
     = if String.eqb "content-type" "Content-Type" then Some "text/csv"
       else Some ("text/plain" ++ ", " ++ "text/csv").
Proof.
  intros P client config.
  apply (merged_header_case_variants P client config
           "content-type" "Content-Type" "text/plain" "text/csv");
    reflexivity.
Defined.



(** ** Default policy *)

(** X22.  With no retry configured the policy is three retries: a
    request whose URL resolves and whose every transport outcome is a
    default-retryable failure makes exactly four transport invocations,
    with three waits, and ends on the outcome of the fourth. *)
Theorem send_default_policy_four_invocations :
  forall (P : Platform) (this : ApiRequest) (w : World) (url : string),
    req_retry this = None ->
    buildUrl P this = inr url ->
    (forall j u init,
        (fetch_calls w <= j <= fetch_calls w + 3)%nat ->
        retryable_failure (fetch P j u init)) ->
    let '(c, this', w') := send P this w in
    fetch_calls w' = (fetch_calls w + 4)%nat
    /\ List.length (sleeps w') = (List.length (sleeps w) + 3)%nat
    /\ exists init,
         match fetch P (fetch_calls w + 3) url init with
         | Resolves r => c = Return r
         | Rejects t =>
             exists e, as_Error t = Some e
                       /\ c = Throw (ThrownApiError (fromNetworkError P e (Some this')))
         end.
Proof.
  intros P this w url Hretry Hurl Hfail. unfold send, getRetrySettings.
  rewrite Hretry.
  change (Z.to_nat (rs_maxRetries
            (mkRetrySettings RETRY_DEFAULTS.MAX_RETRIES RETRY_DEFAULTS.DELAY
               (RetryStatuses DEFAULT_RETRY_STATUSES)) + 1)) with 4%nat.
  pose proof (send_attempts_all_fail P 3 RETRY_DEFAULTS.DELAY url 3 0 None this w
                ltac:(lia) Hurl Hfail) as H.
  unfold RETRY_DEFAULTS.MAX_RETRIES.
  destruct (send_attempts P _ 4 0 None this w) as [[c this'] w'].
  destruct H as (A & _ & C & D). repeat split; try lia. exact D.
Qed.

Lemma send_default_policy_four_invocations_witness :
  let P := TestDouble.platform (TestDouble.always 429) in
  let this := new_ApiRequest P (TestDouble.config GET [] BUndefined None) in
  let '(c, this', w') := send P this initial_world in
  fetch_calls w' = (fetch_calls initial_world + 4)%nat
  /\ List.length (sleeps w') = (List.length (sleeps initial_world) + 3)%nat
  /\ exists init,
       match fetch P (fetch_calls initial_world + 3) "https://api.test/users" init with
       | Resolves r => c = Return r
       | Rejects t =>
           exists e, as_Error t = Some e
                     /\ c = Throw (ThrownApiError (fromNetworkError P e (Some this')))
       end.
Proof.
  intros P this.
  apply (send_default_policy_four_invocations P this initial_world
           "https://api.test/users").
  - reflexivity.
  - reflexivity.
  - intros j u init _. simpl. tauto.
Defined.

(** ** Whole runs *)

(** X23.  An abort ends the run wherever it happens.  If the transport
    invocation number [j] rejects with an abort whatever it is called
    with, then any run of [send] that gets to make that invocation
    throws the TIMEOUT error, and invocation [j] is its last: no retry
    follows a timeout, however many attempts are left. *)
Theorem send_abort_is_last_invocation :
  forall (P : Platform) (this : ApiRequest) (w : World) (j : nat),
    (forall url init, aborted (fetch P j url init)) ->
    (fetch_calls w <= j)%nat ->
    (j < fetch_calls (snd (send P this w)))%nat ->
    fetch_calls (snd (send P this w)) = S j
    /\ fst (fst (send P this w))
       = Throw (ThrownApiError (fromTimeout P (Some (snd (fst (send P this w)))))).
Proof.
  intros P this w j Habort Hle. unfold send.
  pose proof (send_attempts_abort_is_last P (getRetrySettings this) j Habort
                (Z.to_nat (rs_maxRetries (getRetrySettings this) + 1)) 0 None
                this w Hle) as H.
  destruct (send_attempts P _ _ 0 None this w) as [[c this'] w'].
  exact H.
Qed.

Lemma send_abort_is_last_invocation_witness :
  let P := TestDouble.platform
             (fun k _ _ =>
                if Nat.ltb k 1 then Resolves (TestDouble.reply 503 [] "")
                else Rejects (ThrownError (mkError "AbortError" "aborted"))) in
  let this := new_ApiRequest P
                (mkRequestConfig GET "/users" (Some "https://api.test") [] None
                   BUndefined (Some 50) (Some (RetryNumber 5)) None) in
  fetch_calls (snd (send P this initial_world)) = 2%nat
  /\ fst (fst (send P this initial_world))
     = Throw (ThrownApiError
                (fromTimeout P (Some (snd (fst (send P this initial_world)))))).
Proof.
  intros P this.
  apply (send_abort_is_last_invocation P this initial_world 1%nat).
  - intros url init. simpl. eexists. split; reflexivity.
  - simpl. lia.
  - vm_compute. lia.
Defined.

(** With as many passes left as attempts, the policy is consulted and
    the loop sleeps at most once per attempt but the last. *)
Lemma send_attempts_consults_bounded (P : Platform) (settings : RetrySettings) :
  forall (k : nat) (attempt : Z) (lastError : option ErrorObj)
         (this : ApiRequest) (w : World),
    attempt + Z.of_nat k = rs_maxRetries settings ->
    let w' := snd (send_attempts P settings (S k) attempt lastError this w) in
    (retry_checks w' <= retry_checks w + k)%nat
    /\ (List.length (sleeps w') <= List.length (sleeps w) + k)%nat
    /\ (List.length (sleeps w') - List.length (sleeps w)
        = random_draws w' - random_draws w)%nat
    /\ (random_draws w <= random_draws w')%nat
    /\ (List.length (sleeps w) <= List.length (sleeps w'))%nat.
Proof.
  induction k as [|k IH]; intros attempt lastError this w Hk;
    rewrite send_attempts_unfold.
  - assert (Hlt : (attempt <? rs_maxRetries settings) = false)
      by (apply Z.ltb_ge; lia).
    unfold attempt_step, on_catch. rewrite Hlt.
    destruct (buildUrl P this) as [e | url].
    + simpl. destruct (String.eqb (err_name e) "AbortError"); simpl; lia.
    + destruct (fetch_init P this) as [init this1].
      destruct (fetch P (fetch_calls w) url init) as [r | t].
      * rewrite andb_false_r. simpl. lia.
      * destruct (as_Error t) as [e|]; [|simpl; lia].
        destruct (String.eqb (err_name e) "AbortError"); simpl; lia.
  - assert (Hstep :
      forall le' this1 w0,
        retry_checks w0 = S (retry_checks w) ->
        sleeps w0 = sleeps w ->
        random_draws w0 = random_draws w ->
        let w' := snd (send_attempts P settings (S k) (attempt + 1) le' this1
                         (wait P (delay_or_default (rs_delay settings)) attempt w0)) in
        (retry_checks w' <= retry_checks w + S k)%nat
        /\ (List.length (sleeps w') <= List.length (sleeps w) + S k)%nat
        /\ (List.length (sleeps w') - List.length (sleeps w)
            = random_draws w' - random_draws w)%nat
        /\ (random_draws w <= random_draws w')%nat
        /\ (List.length (sleeps w) <= List.length (sleeps w'))%nat).
    { intros le' this1 w0 Hc Hs Hd.
      specialize (IH (attempt + 1) le' this1
                    (wait P (delay_or_default (rs_delay settings)) attempt w0)
                    ltac:(lia)).
      simpl in IH. rewrite length_app in IH. simpl in IH.
      rewrite Hc, Hs, Hd in IH. simpl. lia. }
    unfold attempt_step, on_catch.
    destruct (buildUrl P this) as [e | url].
    + simpl as_Error. cbv iota.
      destruct (String.eqb (err_name e) "AbortError"); [simpl; lia|].
      destruct (attempt <? rs_maxRetries settings); [|simpl; lia].
      destruct (shouldRetryError e settings); [|simpl; lia].
      apply Hstep; reflexivity.
    + destruct (fetch_init P this) as [init this1].
      destruct (fetch P (fetch_calls w) url init) as [r | t].
      * destruct (negb (ok r) && (attempt <? rs_maxRetries settings)); [|simpl; lia].
        destruct (shouldRetryResponse r settings); [|simpl; lia].
        apply Hstep; reflexivity.
      * destruct (as_Error t) as [e|]; [|simpl; lia].
        destruct (String.eqb (err_name e) "AbortError"); [simpl; lia|].
        destruct (attempt <? rs_maxRetries settings); [|simpl; lia].
        destruct (shouldRetryError e settings); [|simpl; lia].
        apply Hstep; reflexivity.
Qed.

(** X24.  The retry policy is never consulted for the last attempt.
    With [maxRetries >= 0], whatever the transport does, one run of
    [send] consults [shouldRetry] at most [maxRetries] times and sleeps
    at most [maxRetries] times, drawing one random number per sleep. *)
Theorem send_consults_policy_bounded :
  forall (P : Platform) (this : ApiRequest) (w : World),
    0 <= rs_maxRetries (getRetrySettings this) ->
    let w' := snd (send P this w) in
    (retry_checks w'
     <= retry_checks w + Z.to_nat (rs_maxRetries (getRetrySettings this)))%nat
    /\ (List.length (sleeps w')
        <= List.length (sleeps w) + Z.to_nat (rs_maxRetries (getRetrySettings this)))%nat
    /\ (List.length (sleeps w') - List.length (sleeps w)
        = random_draws w' - random_draws w)%nat.
Proof.
  intros P this w Hmax. unfold send.
  replace (Z.to_nat (rs_maxRetries (getRetrySettings this) + 1))
    with (S (Z.to_nat (rs_maxRetries (getRetrySettings this)))) by lia.
  destruct (send_attempts_consults_bounded P (getRetrySettings this)
              (Z.to_nat (rs_maxRetries (getRetrySettings this))) 0 None this w
              ltac:(lia)) as (A & B & C & _).
  auto.
Qed.

Lemma send_consults_policy_bounded_witness :
  let P := TestDouble.platform (TestDouble.always 500) in
  let this :=
    new_ApiRequest P
      (TestDouble.config GET [] BUndefined
         (Some (RetryObject
                  (mkRetryConfig 2 None (Some (RetryPredicate (fun _ => true))))))) in
  let w' := snd (send P this initial_world) in
  (retry_checks w'
   <= retry_checks initial_world
      + Z.to_nat (rs_maxRetries (getRetrySettings this)))%nat
  /\ (List.length (sleeps w')
      <= List.length (sleeps initial_world)
         + Z.to_nat (rs_maxRetries (getRetrySettings this)))%nat
  /\ (List.length (sleeps w') - List.length (sleeps initial_world)
      = random_draws w' - random_draws initial_world)%nat.
Proof.
  intros P this.
  apply (send_consults_policy_bounded P this initial_world). simpl. lia.
Defined.

(** ** Construction, as the code validates it *)

(** X25.  What the constructor rejects.  [new Client(config)] throws
    exactly when the timeout is negative or the base URL is a non-empty
    string that does not start with [http://] or [https://]; for every
    other configuration, a timeout of 0 and an empty base URL included,
    it returns an instance, whose two interceptor chains are empty. *)
Theorem constructor_rejects_exactly :
  forall (config : ClientConfig),
    ((exists e, Client.create config = Throw e)
     <-> (exists ms, cc_timeout config = Some ms /\ ms < 0)
         \/ (exists b, cc_baseURL config = Some b /\ b <> ""
                       /\ http_url_test b = false))
    /\ (forall this,
          Client.create config = Return this ->
          Interceptor.isEmpty (Client.interceptors_request this) = true
          /\ Interceptor.isEmpty (Client.interceptors_response this) = true
          /\ Client.timeout this = cc_timeout config
          /\ Client.baseURL this = cc_baseURL config).
Proof.
  intros config. split; [apply create_throws_iff|].
  intros this. unfold Client.create.
  destruct (Client.validateConfig _); [|discriminate].
  intros [= <-]. repeat split.
Qed.
